(** * Partition resolution and call compilation of [jax/experimental/pjit.py]

    A shallow embedding of the placement parser, the uniqueness checker, the
    shape/resource validator, the parameter rewrites of the [pjit_call]
    primitive, the resource typing rule and the sharding-constraint
    primitive, together with the properties the specification states about
    them. *)

From Stdlib Require Import ZArith Lia Sorted.
From stdpp Require Import gmap strings list fin_maps.

#[local] Set Warnings "-register-all".

(** ** Python results: a value or a raised exception *)

Definition axis_name := string.

(** One positional component of a [PartitionSpec]: [None], a tuple or a list
    of mesh axes, or a single mesh axis. *)
Inductive axis_entry :=
| AxNone
| AxTuple (axes : list axis_name)
| AxList (axes : list axis_name)
| AxName (axis : axis_name).

(** What a user may write for one leaf of [in_axis_resources]. *)
Inductive user_input :=
| UNone
| UPartitionSpec (entries : list axis_entry)
| UOther (repr : string).

Global Instance axis_entry_eq_dec : EqDecision axis_entry.
Proof. solve_decision. Defined.
Global Instance user_input_eq_dec : EqDecision user_input.
Proof. solve_decision. Defined.

(** [class ParsedPartitionSpec]: [__init__(self, user_spec, partitions)]. *)
Record ParsedPartitionSpec := mkParsed {
  user_spec : user_input;
  partitions : list (list axis_name)
}.

Global Instance ParsedPartitionSpec_eq_dec : EqDecision ParsedPartitionSpec.
Proof. solve_decision. Defined.

(** The payload of the [ValueError]s and [JAXTypeError]s of this file: what
    each message interpolates. *)
Inductive value_error :=
| DuplicateEntries (arg_name : string) (spec : ParsedPartitionSpec)
                   (multiple_uses : list axis_name)
| RankTooLow (what : string) (spec : ParsedPartitionSpec)
             (spec_rank rank : nat)
| UndefinedAxis (what : string) (spec : ParsedPartitionSpec)
                (resource : axis_name)
| NotDivisible (what : string) (spec : ParsedPartitionSpec)
               (i : nat) (size dim : Z).

Inductive exn :=
| TypeError (arg_name : string) (entry : user_input)
| ValueError (e : value_error)
| JAXTypeError (what : string) (spec : ParsedPartitionSpec)
               (overlap : gset axis_name)
| KeyError (key : string)
| IndexError
| TreeStructureError
| ZeroDivisionError
| NotImplementedError (msg : string).

Inductive result (A : Type) :=
| Ok (a : A)
| Raise (e : exn).
Arguments Ok {A} a.
Arguments Raise {A} e.

Global Instance result_ret : MRet result := fun A a => Ok a.
Global Instance result_bind : MBind result := fun A B f m =>
  match m with
  | Ok a => f a
  | Raise e => Raise e
  end.

(** A [for] loop whose body may raise: the first exception ends the loop. *)
Fixpoint for_each {A : Type} (body : A -> result unit) (l : list A)
  : result unit :=
  match l with
  | [] => Ok tt
  | x :: l' => body x ≫= fun _ => for_each body l'
  end.

(** A list comprehension whose element expression may raise. *)
Fixpoint comprehension {A B : Type} (f : A -> result B) (l : list A)
  : result (list B) :=
  match l with
  | [] => Ok []
  | x :: l' => y ← f x; ys ← comprehension f l'; Ok (y :: ys)
  end.

(** ** The placement parser *)

Module Parser.

(** The loop body of [from_user_input]: one component to a tuple of axes. *)
Definition normalize (axis_spec : axis_entry) : list axis_name :=
  match axis_spec with
  | AxNone => []
  | AxTuple axes => axes
  | AxList axes => axes
  | AxName axis => [axis]
  end.

Definition from_user_input (entry : user_input) (arg_name : string)
  : result ParsedPartitionSpec :=
  match entry with
  | UNone => Ok (mkParsed entry [])
  | UOther _ => Raise (TypeError arg_name entry)
  | UPartitionSpec axis_specs => Ok (mkParsed entry (map normalize axis_specs))
  end.

(** [REPLICATED = ParsedPartitionSpec(None, ())]. *)
Definition REPLICATED : ParsedPartitionSpec := mkParsed UNone [].

(** [__len__] and the truth value Python derives from it. *)
Definition len (p : ParsedPartitionSpec) : nat := length (partitions p).
Definition truthy (p : ParsedPartitionSpec) : bool := negb (Nat.eqb (len p) 0).

(** [__eq__]: the two pairs [(partitions, user_spec)] compared. *)
Definition eq (a b : ParsedPartitionSpec) : bool :=
  bool_decide ((partitions a, user_spec a) = (partitions b, user_spec b)).

End Parser.

(** Hashing. Python's [hash] of a string, of [None] and of a tuple are the
    interpreter's; they are taken as given. *)
Section Hash.

Variable hash_str : string -> Z.
Variable hash_tuple : list Z -> Z.

(** [__hash__]: [hash(self.partitions)], a tuple of tuples of axis names. *)
Definition hash_partitions (ps : list (list axis_name)) : Z :=
  hash_tuple (map (fun axes => hash_tuple (map hash_str axes)) ps).

Definition ParsedPartitionSpec_hash (p : ParsedPartitionSpec) : Z :=
  hash_partitions (partitions p).

End Hash.

(** ** Counting resource axes: [collections.Counter] *)

Module Counter.

(** A counter keeps its keys in order of first insertion. *)
Definition t := list (axis_name * nat).

Fixpoint add (r : axis_name) (c : t) : t :=
  match c with
  | [] => [(r, 1)]
  | (k, n) :: c' =>
      if decide (k = r) then (k, S n) :: c' else (k, n) :: add r c'
  end.

Definition of_list (l : list axis_name) : t :=
  foldl (fun c r => add r c) [] l.

Fixpoint get (r : axis_name) (c : t) : nat :=
  match c with
  | [] => 0
  | (k, n) :: c' => if decide (k = r) then n else get r c'
  end.

(** The entry [max] returns: the first one whose count is largest. *)
Fixpoint first_max (best : axis_name * nat) (c : t) : axis_name * nat :=
  match c with
  | [] => best
  | (k, n) :: c' =>
      if Nat.ltb (snd best) n then first_max (k, n) c' else first_max best c'
  end.

(** [most_common(1)]: a list of at most one entry. *)
Definition most_common_1 (c : t) : list (axis_name * nat) :=
  match c with
  | [] => []
  | e :: c' => [first_max e c']
  end.

End Counter.

(** ** The uniqueness checker *)

Definition check_unique_one (arg_name : string)
    (arg_axis_resources : ParsedPartitionSpec) : result unit :=
  if negb (Parser.truthy arg_axis_resources) then Ok tt
  else
    let resource_counts :=
      Counter.of_list (concat (partitions arg_axis_resources)) in
    match Counter.most_common_1 resource_counts with
    | [] => Raise IndexError
    | (_, top) :: _ =>
        if Nat.ltb 1 top then
          let multiple_uses :=
            map fst (filter (fun rc => 1 < snd rc) resource_counts) in
          match multiple_uses with
          | [] => Ok tt
          | _ :: _ =>
              Raise (ValueError
                (DuplicateEntries arg_name arg_axis_resources multiple_uses))
          end
        else Ok tt
    end.

Definition _check_unique_resources (axis_resources : list ParsedPartitionSpec)
    (arg_name : string) : result unit :=
  for_each (check_unique_one arg_name) axis_resources.

(** ** Argument trees *)

(** Modelled from the spec: [tree_flatten] and [tree_unflatten] belong to the
    tree utility, which is not part of this file. A tree is a leaf or a tuple
    of trees; flattening lists its leaves left to right and keeps the shape;
    unflattening fills a shape with leaves. With the [is_leaf] predicate the
    parser passes, a [None] inside a tree is a leaf. *)
Inductive pytree (A : Type) :=
| PLeaf (a : A)
| PTuple (children : list (pytree A)).
Arguments PLeaf {A} a.
Arguments PTuple {A} children.

Inductive treedef :=
| TDLeaf
| TDNone
| TDTuple (children : list treedef).

Fixpoint tree_leaves {A : Type} (t : pytree A) : list A :=
  match t with
  | PLeaf a => [a]
  | PTuple children => flat_map tree_leaves children
  end.

Fixpoint tree_structure {A : Type} (t : pytree A) : treedef :=
  match t with
  | PLeaf _ => TDLeaf
  | PTuple children => TDTuple (map tree_structure children)
  end.

Definition tree_flatten {A : Type} (t : pytree A) : list A * treedef :=
  (tree_leaves t, tree_structure t).

Fixpoint unflatten_from {A : Type} (d : treedef) (leaves : list A)
  : option (pytree A * list A) :=
  match d with
  | TDLeaf =>
      match leaves with
      | x :: rest => Some (PLeaf x, rest)
      | [] => None
      end
  | TDNone => Some (PTuple [], leaves)
  | TDTuple ds =>
      let fill := fix fill (ds : list treedef) (leaves : list A)
        : option (list (pytree A) * list A) :=
        match ds with
        | [] => Some ([], leaves)
        | d' :: ds' =>
            match unflatten_from d' leaves with
            | Some (t, rest) =>
                match fill ds' rest with
                | Some (ts, rest') => Some (t :: ts, rest')
                | None => None
                end
            | None => None
            end
        end in
      match fill ds leaves with
      | Some (ts, rest) => Some (PTuple ts, rest)
      | None => None
      end
  end.

Definition tree_unflatten {A : Type} (d : treedef) (leaves : list A)
  : result (pytree A) :=
  match unflatten_from d leaves with
  | Some (t, []) => Ok t
  | _ => Raise TreeStructureError
  end.

(** [_prepare_axis_resources]: [None] at the top is answered at once; any
    other declaration is flattened and parsed leaf by leaf. *)
Definition _prepare_axis_resources (axis_resources : option (pytree user_input))
    (arg_name : string)
  : result (pytree ParsedPartitionSpec * list ParsedPartitionSpec * treedef) :=
  match axis_resources with
  | None => Ok (PLeaf Parser.REPLICATED, [Parser.REPLICATED], TDNone)
  | Some tree =>
      let '(entries, treedef) := tree_flatten tree in
      let what := String.append arg_name " leaf specifications" in
      entries ← comprehension (fun entry => Parser.from_user_input entry what)
                              entries;
      _ ← _check_unique_resources entries arg_name;
      tree' ← tree_unflatten treedef entries;
      Ok (tree', entries, treedef)
  end.

(** ** Abstract values and the resource environment *)

Record ShapedArray := mkShaped {
  shape : list Z;
  dtype : string;
  named_shape : list (axis_name * Z)
}.

Global Instance ShapedArray_eq_dec : EqDecision ShapedArray.
Proof. solve_decision. Defined.

(** The resource environment: the physical mesh (ordered axis names with
    their sizes) and [local_shape], from axis name to size. *)
Record ResourceEnv := mkEnv {
  physical_mesh : list (axis_name * Z);
  local_shape : gmap axis_name Z
}.

Global Instance ResourceEnv_eq_dec : EqDecision ResourceEnv.
Proof. solve_decision. Defined.

(** ** The shape/resource validator *)

(** A 64-bit signed integer of numpy: results wrap around. *)
Definition int64_wrap (z : Z) : Z := ((z + 2 ^ 63) mod 2 ^ 64 - 2 ^ 63)%Z.

(** [np.prod(l, dtype=np.int64)]: the empty product is 1. *)
Definition np_prod_int64 (l : list Z) : Z :=
  foldl (fun acc x => int64_wrap (acc * x)) 1%Z l.

Definition enumerate {A : Type} (l : list A) : list (nat * A) :=
  zip (seq 0 (length l)) l.

(** [resource_sizes[resource]], which raises [KeyError] on a missing key. *)
Definition getitem_size (resource_sizes : gmap axis_name Z)
    (resource : axis_name) : result Z :=
  match resource_sizes !! resource with
  | Some size => Ok size
  | None => Raise (KeyError resource)
  end.

(** The body of the inner loop: one dimension of one placement. *)
Definition check_dimension (what : string) (resource_sizes : gmap axis_name Z)
    (aval_axis_resources : ParsedPartitionSpec) (shape : list Z)
    (i : nat) (axis_resources : list axis_name) : result unit :=
  match comprehension (getitem_size resource_sizes) axis_resources with
  | Raise (KeyError resource) =>
      Raise (ValueError (UndefinedAxis what aval_axis_resources resource))
  | Raise e => Raise e
  | Ok sizes =>
      let size := np_prod_int64 sizes in
      match shape !! i with
      | None => Raise IndexError
      | Some dim =>
          if (size =? 0)%Z then Raise ZeroDivisionError
          else if negb (dim mod size =? 0)%Z then
            Raise (ValueError
              (NotDivisible what aval_axis_resources i size dim))
          else Ok tt
      end
  end.

(** The body of the outer loop: one value, given by its shape, with its
    placement. *)
Definition check_shape (what : string) (resource_sizes : gmap axis_name Z)
    (shape : list Z) (aval_axis_resources : ParsedPartitionSpec)
  : result unit :=
  if Nat.ltb (length shape) (Parser.len aval_axis_resources) then
    Raise (ValueError (RankTooLow what aval_axis_resources
             (Parser.len aval_axis_resources) (length shape)))
  else
    for_each (fun '(i, axis_resources) =>
                check_dimension what resource_sizes aval_axis_resources shape
                                i axis_resources)
             (enumerate (partitions aval_axis_resources)).

Section Validator.

(** Values are opaque; [core.get_aval] gives their abstract value. *)
Context {value : Type} (get_aval : value -> ShapedArray).

Definition _check_shapes_against_resources (what : string)
    (resource_env : ResourceEnv) (flat_vals : list value)
    (flat_axis_resources : list ParsedPartitionSpec) : result unit :=
  let resource_sizes := local_shape resource_env in
  for_each (fun '(val, aval_axis_resources) =>
              check_shape what resource_sizes (shape (get_aval val))
                          aval_axis_resources)
           (zip flat_vals flat_axis_resources).

End Validator.

(** ** Hashable thunks *)

(** The code object of a function: one per place of definition. The three
    thunks of output placements this file builds are the lambda of
    [pjit]'s [wrapped], [new_out_axis_resources_thunk] of the
    differentiation rewrite and the lambda of [_pjit_init_to_final_params]. *)
Inductive code :=
| code_wrapped_lambda
| code_new_out_axis_resources_thunk
| code_init_to_final_lambda
| code_other (n : nat).

Global Instance code_eq_dec : EqDecision code.
Proof. solve_decision. Defined.

Global Instance treedef_eq_dec : EqDecision treedef.
Proof.
  refine (fix go (a b : treedef) {struct a} : Decision (a = b) :=
    match a, b with
    | TDLeaf, TDLeaf => left eq_refl
    | TDNone, TDNone => left eq_refl
    | TDTuple xs, TDTuple ys => cast_if (@list_eq_dec _ go xs ys)
    | _, _ => right _
    end); congruence.
Defined.

(** Modelled from the spec: [HashableFunction] and [as_hashable_function]
    come from the utilities, which are not part of this file. A hashable
    function wraps a function [f] together with a declared [closure]; it is
    called like [f], and it compares and hashes by the code of [f] and the
    closure, that is by content and not by identity. The closures are the
    ones this file passes. *)
Inductive HashableFunction :=
| mkHashable (f : unit -> result (list ParsedPartitionSpec))
             (f_code : code) (closure : hf_closure)
with hf_closure :=
| ClosureWrapped (out_axis_resources_entries : list ParsedPartitionSpec)
                 (out_axis_treedef : treedef)
| ClosureJvp (nz_tangents : list bool)
             (out_axis_resources_thunk : HashableFunction)
| ClosureFinal (out_axis_resources : list ParsedPartitionSpec).

Definition hf_call (h : HashableFunction)
  : result (list ParsedPartitionSpec) :=
  match h with mkHashable f _ _ => f tt end.

Definition hf_code (h : HashableFunction) : code :=
  match h with mkHashable _ c _ => c end.

Definition hf_closure_of (h : HashableFunction) : hf_closure :=
  match h with mkHashable _ _ cl => cl end.

(** [HashableFunction.__eq__]: equal code and equal closure. *)
Fixpoint hf_eq (a b : HashableFunction) {struct a} : bool :=
  match a, b with
  | mkHashable _ ca cla, mkHashable _ cb clb =>
      bool_decide (ca = cb) && closure_eq cla clb
  end
with closure_eq (a b : hf_closure) {struct a} : bool :=
  match a, b with
  | ClosureWrapped ea ta, ClosureWrapped eb tb =>
      bool_decide (ea = eb) && bool_decide (ta = tb)
  | ClosureJvp nza ha, ClosureJvp nzb hb =>
      bool_decide (nza = nzb) && hf_eq ha hb
  | ClosureFinal oa, ClosureFinal ob => bool_decide (oa = ob)
  | _, _ => false
  end.

Section ThunkHash.

Variable hash_str : string -> Z.
Variable hash_tuple : list Z -> Z.
Variable hash_bool : bool -> Z.
Variable hash_code : code -> Z.
Variable hash_treedef : treedef -> Z.

Definition hash_specs (l : list ParsedPartitionSpec) : Z :=
  hash_tuple (map (ParsedPartitionSpec_hash hash_str hash_tuple) l).

(** [HashableFunction.__hash__]: [hash((self.f.__code__, self.closure))]. *)
Fixpoint hf_hash (h : HashableFunction) : Z :=
  match h with
  | mkHashable _ c cl => hash_tuple [hash_code c; closure_hash cl]
  end
with closure_hash (cl : hf_closure) : Z :=
  match cl with
  | ClosureWrapped entries td =>
      hash_tuple [hash_specs entries; hash_treedef td]
  | ClosureJvp nz h => hash_tuple [hash_tuple (map hash_bool nz); hf_hash h]
  | ClosureFinal out => hash_specs out
  end.

End ThunkHash.

(** ** Call bodies and the parameters of [pjit_call] *)

Record Var := mkVar {
  var_count : nat;
  aval : ShapedArray
}.

Record JaxprEqn := mkEqn {
  eqn_invars : list Var;
  eqn_outvars : list Var;
  eqn_primitive : string
}.

Record Jaxpr := mkJaxpr {
  invars : list Var;
  outvars : list Var;
  eqns : list JaxprEqn
}.

(** The parameters while the output placements are still a thunk. The call
    body is bound only once the call has been traced. *)
Record pjit_params := mkParams {
  call_jaxpr : option Jaxpr;
  in_axis_resources : list ParsedPartitionSpec;
  out_axis_resources_thunk : HashableFunction;
  resource_env : ResourceEnv;
  donated_invars : list bool;
  name : string
}.

(** The parameters of a staged call: the placements of the outputs are a
    tuple. *)
Record pjit_final_params := mkFinal {
  final_call_jaxpr : option Jaxpr;
  final_in_axis_resources : list ParsedPartitionSpec;
  out_axis_resources : list ParsedPartitionSpec;
  final_resource_env : ResourceEnv;
  final_donated_invars : list bool;
  final_name : string
}.

(** [params['call_jaxpr']] *)
Definition getitem_call_jaxpr (j : option Jaxpr) : result Jaxpr :=
  match j with
  | Some jaxpr => Ok jaxpr
  | None => Raise (KeyError "call_jaxpr"%string)
  end.

(** [tuple(x for x, keep in zip(l, mask) if keep)] *)
Definition filter_zip {A : Type} (l : list A) (mask : list bool) : list A :=
  map fst (filter (fun xk => snd xk = true) (zip l mask)).

(** [(x,) * n]: no element when [n] is negative. *)
Definition tuple_repeat {A : Type} (x : A) (n : Z) : list A :=
  replicate (Z.to_nat n) x.

(** The truth value of a sequence. *)
Definition nonempty {A : Type} (l : list A) : bool :=
  match l with [] => false | _ :: _ => true end.

(** ** The partial-evaluation rewrite *)

Definition _pjit_partial_eval_update_params (params : pjit_params)
    (in_unknowns : list bool) : result pjit_final_params :=
  call_jaxpr ← getitem_call_jaxpr (call_jaxpr params);
  let donated_invars := donated_invars params in
  let in_axis_resources := in_axis_resources params in
  let out_axis_resources_thunk := out_axis_resources_thunk params in
  let '(new_donated_invars, new_in_axis_resources) :=
    if negb (nonempty in_unknowns) && nonempty donated_invars then
      (tuple_repeat false (Z.of_nat (length (invars call_jaxpr))),
       tuple_repeat Parser.REPLICATED (Z.of_nat (length (invars call_jaxpr))))
    else
      let num_consts :=
        (Z.of_nat (length (invars call_jaxpr))
         - Z.of_nat (length donated_invars))%Z in
      let filter_unknown {A} (l : list A) := filter_zip l in_unknowns in
      (tuple_repeat false num_consts ++ filter_unknown donated_invars,
       tuple_repeat Parser.REPLICATED num_consts
         ++ filter_unknown in_axis_resources) in
  new_out_axis_resources ← hf_call out_axis_resources_thunk;
  Ok {| final_call_jaxpr := Some call_jaxpr;
        final_in_axis_resources := new_in_axis_resources;
        out_axis_resources := new_out_axis_resources;
        final_resource_env := resource_env params;
        final_donated_invars := new_donated_invars;
        final_name := name params |}.

(** ** The forward-mode differentiation rewrite *)

Definition _pjit_jvp_update_params (params : pjit_params)
    (nz_tangents : list bool)
    (nz_tangents_out_thunk : unit -> result (list bool)) : pjit_params :=
  let donated_invars := donated_invars params in
  let in_axis_resources := in_axis_resources params in
  let out_axis_resources_thunk := out_axis_resources_thunk params in
  let filter_nonzero_ins {A} (l : list A) := filter_zip l nz_tangents in
  let new_out_axis_resources_thunk :=
    mkHashable
      (fun _ =>
         out_axis_resources ← hf_call out_axis_resources_thunk;
         nz_out ← nz_tangents_out_thunk tt;
         Ok (out_axis_resources ++ filter_zip out_axis_resources nz_out))
      code_new_out_axis_resources_thunk
      (ClosureJvp nz_tangents out_axis_resources_thunk) in
  {| call_jaxpr := call_jaxpr params;
     in_axis_resources :=
       in_axis_resources ++ filter_nonzero_ins in_axis_resources;
     out_axis_resources_thunk := new_out_axis_resources_thunk;
     resource_env := resource_env params;
     donated_invars := donated_invars ++ filter_nonzero_ins donated_invars;
     name := name params |}.

(** ** From a staged call back to a call that is bound *)

Definition _pjit_init_to_final_params (params : pjit_final_params)
  : pjit_params :=
  let out_axis_resources_thunk :=
    mkHashable (fun _ => Ok (out_axis_resources params))
               code_init_to_final_lambda
               (ClosureFinal (out_axis_resources params)) in
  {| call_jaxpr := final_call_jaxpr params;
     in_axis_resources := final_in_axis_resources params;
     out_axis_resources_thunk := out_axis_resources_thunk;
     resource_env := final_resource_env params;
     donated_invars := final_donated_invars params;
     name := final_name params |}.

(** ** The sharding annotation emitter *)

(** An [OrderedDict]: setting a key that is present keeps its position. *)
Fixpoint ordered_set {V : Type} (k : axis_name) (v : V)
    (d : list (axis_name * V)) : list (axis_name * V) :=
  match d with
  | [] => [(k, v)]
  | (k', v') :: d' =>
      if decide (k' = k) then (k', v) :: d' else (k', v') :: ordered_set k v d'
  end.

Definition get_array_mapping (axis_resources : ParsedPartitionSpec)
  : list (axis_name * nat) :=
  foldl (fun d '(i, axes) => foldl (fun d axis => ordered_set axis i d) d axes)
        [] (enumerate (partitions axis_resources)).

(** ** The call and its compilation cache *)

(** A wrapped function: the function it wraps and the transformations
    stacked on it, both by identity. *)
Record WrappedFun := mkWrapped {
  fun_f : nat;
  fun_transforms : list nat
}.

Global Instance WrappedFun_eq_dec : EqDecision WrappedFun.
Proof. solve_decision. Defined.

(** The arguments of [_pjit_callable] after the function. *)
Record callable_args := mkArgs {
  arg_in_axis_resources : list ParsedPartitionSpec;
  arg_out_axis_resources_thunk : HashableFunction;
  arg_resource_env : ResourceEnv;
  arg_donated_invars : list bool;
  arg_name : string;
  arg_local_in_avals : list ShapedArray
}.

(** Equality of two cache keys, component by component; the thunks compare
    as hashable functions do. *)
Definition key_eq (k1 k2 : WrappedFun * callable_args) : bool :=
  bool_decide (k1.1 = k2.1)
  && bool_decide (arg_in_axis_resources k1.2 = arg_in_axis_resources k2.2)
  && hf_eq (arg_out_axis_resources_thunk k1.2)
           (arg_out_axis_resources_thunk k2.2)
  && bool_decide (arg_resource_env k1.2 = arg_resource_env k2.2)
  && bool_decide (arg_donated_invars k1.2 = arg_donated_invars k2.2)
  && bool_decide (arg_name k1.2 = arg_name k2.2)
  && bool_decide (arg_local_in_avals k1.2 = arg_local_in_avals k2.2).

Section Call.

Context {value executable lowering : Type}.

(** [core.get_aval], then [core.raise_to_shaped]. *)
Variable get_aval : value -> ShapedArray.

(** The lowering collaborator: [pxla.mesh_callable] compiles, and the
    executable it returns is run on the arguments. Compiling is an effect:
    the collaborator has a state of its own, which every call of
    [mesh_callable] takes and hands back changed. The arguments this file
    always passes the same way (no backend, [True] for spawning,
    [tile_by_mesh_axes=False], [do_resource_typecheck="pjit"]) are left
    out. *)
Variable mesh_callable :
  WrappedFun -> string -> list (axis_name * Z) ->
  list (list (axis_name * nat)) ->
  (unit -> result (list (list (axis_name * nat)))) ->
  list bool -> list ShapedArray ->
  lowering -> result executable * lowering.
Variable run : executable -> list value -> result (list value).

(** The body of [_pjit_callable], under the decorator. *)
Definition _pjit_callable_body (fun_ : WrappedFun) (a : callable_args)
    (low : lowering) : result executable * lowering :=
  let in_axes := map get_array_mapping (arg_in_axis_resources a) in
  let out_axes := fun _ : unit =>
    specs ← hf_call (arg_out_axis_resources_thunk a);
    Ok (map get_array_mapping specs) in
  mesh_callable fun_ (arg_name a) (physical_mesh (arg_resource_env a))
                in_axes out_axes (arg_donated_invars a)
                (arg_local_in_avals a) low.

(** Modelled from the spec: the memoising decorator [lu.cache] is not part
    of this file. The cache maps a key to the compiled artifact; a call looks
    its key up, compiles and inserts on a miss, and returns the stored
    artifact on a hit. A compilation that fails inserts nothing. The state a
    call works on is the cache together with the state of the lowering
    collaborator. *)
Record cache_state := mkCache {
  entries : list ((WrappedFun * callable_args) * executable);
  lowering_state : lowering
}.


Fixpoint cache_get (k : WrappedFun * callable_args)
    (es : list ((WrappedFun * callable_args) * executable))
  : option executable :=
  match es with
  | [] => None
  | (k', ans) :: es' => if key_eq k' k then Some ans else cache_get k es'
  end.

Definition _pjit_callable (fun_ : WrappedFun) (a : callable_args)
    (st : cache_state) : result executable * cache_state :=
  match cache_get (fun_, a) (entries st) with
  | Some ans => (Ok ans, st)
  | None =>
      let '(compiled, low) := _pjit_callable_body fun_ a (lowering_state st) in
      match compiled with
      | Ok ans => (Ok ans, mkCache (((fun_, a), ans) :: entries st) low)
      | Raise e => (Raise e, mkCache (entries st) low)
      end
  end.


End Call.

(** ** Resource typing against named axes *)

(** [named_axis_resources[a]] *)
Definition getitem_named
    (named_axis_resources : gmap axis_name (list axis_name))
    (a : axis_name) : result (list axis_name) :=
  match named_axis_resources !! a with
  | Some resources => Ok resources
  | None => Raise (KeyError a)
  end.

Definition _check_resources_against_named_axes (what : string)
    (aval : ShapedArray) (pos_axis_resources : ParsedPartitionSpec)
    (named_axis_resources : gmap axis_name (list axis_name)) : result unit :=
  let pjit_resources : gset axis_name :=
    list_to_set (concat (partitions pos_axis_resources)) in
  bound ← comprehension (getitem_named named_axis_resources)
                        (map fst (named_shape aval));
  let aval_resources : gset axis_name := list_to_set (concat bound) in
  let overlap := pjit_resources ∩ aval_resources in
  if decide (overlap = ∅) then Ok tt
  else Raise (JAXTypeError what pos_axis_resources overlap).

Section ResourceTyping.

(** The typing pass of the lowering collaborator over a call body. *)
Variable resource_typecheck :
  Jaxpr -> gmap axis_name (list axis_name) -> string -> result unit.

Definition _resource_typing_pjit (avals : list ShapedArray)
    (params : pjit_final_params) (source_info : string)
    (named_axis_resources : gmap axis_name (list axis_name)) : result unit :=
  jaxpr ← getitem_call_jaxpr (final_call_jaxpr params);
  _ ← for_each (fun '(v, pos_axis_resources) =>
                  _check_resources_against_named_axes
                    "pjit input" (aval v) pos_axis_resources
                    named_axis_resources)
               (zip (invars jaxpr) (final_in_axis_resources params));
  _ ← resource_typecheck jaxpr named_axis_resources (final_name params);
  for_each (fun '(v, pos_axis_resources) =>
              _check_resources_against_named_axes
                "pjit output" (aval v) pos_axis_resources
                named_axis_resources)
           (zip (outvars jaxpr) (out_axis_resources params)).

End ResourceTyping.

(** ** The sharding-constraint primitive *)

(** Modelled from the spec: binding a primitive while a function is traced
    inserts a node in the graph; the tracing machinery is not part of this
    file. A traced value is an input of the graph or the output of a
    sharding-constraint node. *)
Inductive traced :=
| Input (v : Var)
| ShardingConstraint (operand : traced)
                     (axis_resources : ParsedPartitionSpec)
                     (resource_env : ResourceEnv).

(** [sharding_constraint_p.bind(x, axis_resources=..., resource_env=...)] *)
Definition sharding_constraint_bind (x : traced)
    (axis_resources : ParsedPartitionSpec) (resource_env : ResourceEnv)
  : traced :=
  ShardingConstraint x axis_resources resource_env.

Definition _sharding_constraint_impl (x : traced)
    (axis_resources : ParsedPartitionSpec) (resource_env : ResourceEnv)
  : result traced :=
  Raise (NotImplementedError
    "with_sharding_constraint() should only be called inside pjit()"%string).

(** The abstract evaluation rule, [lambda x, **unused: x]. *)
Definition sharding_constraint_abstract_eval (x : ShapedArray)
    (axis_resources : ParsedPartitionSpec) (resource_env : ResourceEnv)
  : ShapedArray := x.

(** The abstract value of a traced value. *)
Fixpoint traced_aval (x : traced) : ShapedArray :=
  match x with
  | Input v => aval v
  | ShardingConstraint operand axis_resources resource_env =>
      sharding_constraint_abstract_eval (traced_aval operand)
                                        axis_resources resource_env
  end.

(** The transpose rule given to [ad.deflinear2]: a tuple of one cotangent
    for the one operand. *)
Definition sharding_constraint_transpose (ct : traced) (x : traced)
    (axis_resources : ParsedPartitionSpec) (resource_env : ResourceEnv)
  : list traced :=
  [sharding_constraint_bind ct axis_resources resource_env].

(** ** Notions the properties are stated with *)

(** How many times an axis is written in a sequence of axes. *)
Definition occurrences (r : axis_name) (l : list axis_name) : nat :=
  length (filter (fun x => x = r) l).

(** A counter as [Counter] builds it: every key once, every count
    positive. *)
Definition counter_wf (c : Counter.t) : Prop :=
  NoDup (map fst c) /\ Forall (fun e => 0 < snd e) c.

(** The product of integers that are not bounded. *)
Definition product (l : list Z) : Z := foldr Z.mul 1%Z l.

(** The number of resources a dimension is split over: the product of the
    sizes of its axes. *)
Definition resource_size (resource_sizes : gmap axis_name Z)
    (axes : list axis_name) : Z :=
  product (map (fun r => default 1%Z (resource_sizes !! r)) axes).

(** Every axis a placement names is a key of [local_shape]. *)
Definition axes_defined (resource_sizes : gmap axis_name Z)
    (spec : ParsedPartitionSpec) : Prop :=
  forall axes r, axes ∈ partitions spec -> r ∈ axes ->
                 is_Some (resource_sizes !! r).

(** Every declared dimension is a multiple of its number of resources. *)
Definition dimensions_divisible (resource_sizes : gmap axis_name Z)
    (shape : list Z) (spec : ParsedPartitionSpec) : Prop :=
  forall i axes dim,
    partitions spec !! i = Some axes -> shape !! i = Some dim ->
    (resource_size resource_sizes axes | dim)%Z.

(** The three conditions of the validator on a shape and its placement. *)
Definition compatible (resource_sizes : gmap axis_name Z)
    (shape : list Z) (spec : ParsedPartitionSpec) : Prop :=
  Parser.len spec <= length shape /\
  axes_defined resource_sizes spec /\
  dimensions_divisible resource_sizes shape spec.

(** A mesh: every axis has at least one resource. *)
Definition mesh_sizes (resource_sizes : gmap axis_name Z) : Prop :=
  map_Forall (fun _ size => (0 < size)%Z) resource_sizes.

(** The resources of every dimension of a placement can be counted in 64
    bits. *)
Definition sizes_fit (resource_sizes : gmap axis_name Z)
    (spec : ParsedPartitionSpec) : Prop :=
  forall axes, axes ∈ partitions spec ->
               (resource_size resource_sizes axes < 2 ^ 63)%Z.

(** The error of a refused shape says which of the three conditions
    fails. *)
Definition refusal (what : string) (resource_sizes : gmap axis_name Z)
    (shape : list Z) (spec : ParsedPartitionSpec) (e : exn) : Prop :=
  (e = ValueError (RankTooLow what spec (Parser.len spec) (length shape)) /\
   length shape < Parser.len spec) \/
  (exists r axes,
     e = ValueError (UndefinedAxis what spec r) /\
     axes ∈ partitions spec /\ r ∈ axes /\ resource_sizes !! r = None) \/
  (exists i axes dim,
     e = ValueError
           (NotDivisible what spec i (resource_size resource_sizes axes) dim) /\
     partitions spec !! i = Some axes /\ shape !! i = Some dim /\
     ~ (resource_size resource_sizes axes | dim)%Z).

(** The mesh axes a placement uses for positional dimensions. *)
Definition positional_resources (pos_axis_resources : ParsedPartitionSpec)
  : gset axis_name :=
  list_to_set (concat (partitions pos_axis_resources)).

(** The mesh axes bound to the named axes of an abstract value. *)
Definition named_resources
    (named_axis_resources : gmap axis_name (list axis_name))
    (a : ShapedArray) : gset axis_name :=
  list_to_set
    (concat (map (fun n => default [] (named_axis_resources !! n))
                 (map fst (named_shape a)))).

(** Every named axis of an abstract value is bound to mesh axes. *)
Definition named_axes_bound
    (named_axis_resources : gmap axis_name (list axis_name))
    (a : ShapedArray) : Prop :=
  Forall (fun n => is_Some (named_axis_resources !! n))
         (map fst (named_shape a)).

(** The two mechanisms use no mesh axis in common for this value. *)
Definition disjoint_resources
    (named_axis_resources : gmap axis_name (list axis_name))
    (v : Var) (pos_axis_resources : ParsedPartitionSpec) : Prop :=
  positional_resources pos_axis_resources
  ∩ named_resources named_axis_resources (aval v) = ∅.

(** The error reports a value among [pairs] whose two sets of mesh axes
    meet, and names the axes they share. *)
Definition reports_overlap (what : string)
    (named_axis_resources : gmap axis_name (list axis_name))
    (pairs : list (Var * ParsedPartitionSpec)) (e : exn) : Prop :=
  exists v pos_axis_resources,
    (v, pos_axis_resources) ∈ pairs /\
    ~ disjoint_resources named_axis_resources v pos_axis_resources /\
    e = JAXTypeError what pos_axis_resources
          (positional_resources pos_axis_resources
           ∩ named_resources named_axis_resources (aval v)).

(** How many entries of a mask are set. *)
Definition count_true (mask : list bool) : nat :=
  length (filter (fun b => b = true) mask).

(** ** Sample inputs *)

(** [PartitionSpec('x', ('y', 'x'))], parsed: the axis [x] serves two
    dimensions. *)
Definition spec_x_yx : ParsedPartitionSpec :=
  mkParsed (UPartitionSpec [AxName "x"; AxTuple ["y"; "x"]])
           [["x"]; ["y"; "x"]]%string.

(** A mesh of two devices along [x], and [PartitionSpec('x')], parsed. *)
Definition mesh_x2 : ResourceEnv :=
  mkEnv [("x"%string, 2%Z)] {[ "x"%string := 2%Z ]}.

Definition spec_x : ParsedPartitionSpec :=
  mkParsed (UPartitionSpec [AxName "x"]) [["x"]]%string.

(** A value known by its shape only. *)
Definition aval_of_shape (shape : list Z) : ShapedArray :=
  mkShaped shape "float32" [].

(** A staged call of two inputs, a constant of the known part followed by the
    one input that is unknown, as [JaxprTrace.process_call] leaves it when
    the first of two arguments is known. *)
Definition staged_jaxpr : Jaxpr :=
  mkJaxpr [mkVar 0 (aval_of_shape [8%Z]); mkVar 1 (aval_of_shape [8%Z])]
          [mkVar 2 (aval_of_shape [8%Z])]
          [mkEqn [mkVar 0 (aval_of_shape [8%Z]); mkVar 1 (aval_of_shape [8%Z])]
                 [mkVar 2 (aval_of_shape [8%Z])] "mul"].

Definition replicated_out_thunk : HashableFunction :=
  mkHashable (fun _ => Ok [Parser.REPLICATED]) code_wrapped_lambda
             (ClosureWrapped [Parser.REPLICATED] TDLeaf).

(** The parameters of the call before staging: two arguments. *)
Definition two_argument_params : pjit_params :=
  mkParams (Some staged_jaxpr) [Parser.REPLICATED; spec_x]
           replicated_out_thunk mesh_x2 [false; false] "f".



(** A staged call under a named-axis mechanism: the input has a named axis
    [b], bound to the mesh axis [x]; the typing pass of the collaborator
    accepts the body. *)
Definition named_input : Var :=
  mkVar 0 (mkShaped [8%Z] "float32" [("b"%string, 4%Z)]).

Definition named_jaxpr : Jaxpr :=
  mkJaxpr [named_input] [mkVar 1 (aval_of_shape [8%Z])]
          [mkEqn [named_input] [mkVar 1 (aval_of_shape [8%Z])] "sin"].

Definition named_params : pjit_final_params :=
  mkFinal (Some named_jaxpr) [spec_x] [Parser.REPLICATED] mesh_x2 [false] "f".

Definition b_on_x : gmap axis_name (list axis_name) :=
  {[ "b"%string := ["x"%string] ]}.

Definition accepting_typecheck (jaxpr : Jaxpr)
    (named_axis_resources : gmap axis_name (list axis_name))
    (what : string) : result unit :=
  Ok tt.

(** ** The opening checks of a call and the check of the outputs *)

(** [max(l, default=d)] *)
Definition max_default (l : list Z) (d : Z) : Z :=
  match l with
  | [] => d
  | x :: l' => foldl Z.max x l'
  end.

(** What the first lines of [wrapped] refuse: keyword arguments, with
    [NotImplementedError], and a static or donated index beyond the
    positional arguments, with [ValueError]. *)
Inductive wrapped_refusal :=
| KwargsNotSupported
| TooFewArguments (static_argnums donate_argnums : list Z) (nargs : nat).

(** The first two statements of [wrapped], on the number of positional
    arguments and the names of the keyword arguments. *)
Definition wrapped_check_arguments (static_argnums donate_argnums : list Z)
    (nargs : nat) (kwargs : list string) : option wrapped_refusal :=
  if nonempty kwargs then Some KwargsNotSupported
  else if (Z.of_nat nargs <=? max_default (static_argnums ++ donate_argnums)
                                          (-1))%Z
  then Some (TooFewArguments static_argnums donate_argnums nargs)
  else None.

Section OutputShapes.

Context {value : Type} (get_aval : value -> ShapedArray).

(** Modelled from the spec: [lu.transformation] is not part of this file. A
    transformation runs the function it wraps on the arguments it yields
    first, receives the outputs, and returns what it yields last.
    [_check_output_shapes] yields the arguments unchanged, validates the
    outputs against the placements the thunk returns, and yields the
    outputs. *)
Definition _check_output_shapes (f : list value -> result (list value))
    (resource_env : ResourceEnv) (out_axis_resources_thunk : HashableFunction)
    (args : list value) : result (list value) :=
  outputs ← f args;
  flat_axis_resources ← hf_call out_axis_resources_thunk;
  _ ← _check_shapes_against_resources get_aval "pjit outputs" resource_env
                                      outputs flat_axis_resources;
  Ok outputs.

End OutputShapes.

(** ** Further notions *)

(** A placement the uniqueness checker has nothing against: it has no
    dimension, or it names an axis and names no axis twice. *)
Definition unique_resources (spec : ParsedPartitionSpec) : Prop :=
  partitions spec = [] \/
  (concat (partitions spec) <> [] /\ NoDup (concat (partitions spec))).

(** Reading a key of an [OrderedDict]. *)
Fixpoint alist_get {V : Type} (k : axis_name) (d : list (axis_name * V))
  : option V :=
  match d with
  | [] => None
  | (k', v) :: d' => if decide (k' = k) then Some v else alist_get k d'
  end.

(** The pairs the generator of [get_array_mapping] produces for the
    dimensions numbered from [n]: every axis with the index of its
    dimension, in the order written. *)
Fixpoint mapping_pairs (n : nat) (dims : list (list axis_name))
  : list (axis_name * nat) :=
  match dims with
  | [] => []
  | axes :: dims' => map (fun a => (a, n)) axes ++ mapping_pairs (S n) dims'
  end.

(** [dict(params, call_jaxpr=jaxpr)] *)
Definition with_call_jaxpr (params : pjit_params) (jaxpr : Jaxpr)
  : pjit_params :=
  mkParams (Some jaxpr) (in_axis_resources params)
           (out_axis_resources_thunk params) (resource_env params)
           (donated_invars params) (name params).

(** [PartitionSpec(('x', 'x'))], parsed: the axis [x] twice in one
    dimension. *)
Definition spec_xx : ParsedPartitionSpec :=
  mkParsed (UPartitionSpec [AxTuple ["x"; "x"]]) [["x"; "x"]]%string.

(** A mesh of two devices along [x] and four along [y]. *)
Definition mesh_x2_y4 : ResourceEnv :=
  mkEnv [("x"%string, 2%Z); ("y"%string, 4%Z)]
        (<[ "y"%string := 4%Z ]> {[ "x"%string := 2%Z ]}).

(** An environment in which the axis [x] has no device. *)
Definition mesh_x0 : ResourceEnv :=
  mkEnv [("x"%string, 0%Z)] {[ "x"%string := 0%Z ]}.

(** One assignment of the [OrderedDict] the emitter builds. *)
Definition mapping_step (d : list (axis_name * nat)) (p : axis_name * nat)
  : list (axis_name * nat) :=
  ordered_set p.1 p.2 d.

(** An abstract value with the named axis [b] and one with the named axes
    [b] and [c]. *)
Definition aval_named_b : ShapedArray :=
  mkShaped [8%Z] "float32" [("b"%string, 4%Z)].

Definition aval_named_b_c : ShapedArray :=
  mkShaped [8%Z] "float32" [("b"%string, 4%Z); ("c"%string, 2%Z)].

(** The positions a mask sets, counted from [n], in increasing order. *)
Fixpoint true_positions (n : nat) (mask : list bool) : list nat :=
  match mask with
  | [] => []
  | b :: mask' =>
      if b then n :: true_positions (S n) mask'
      else true_positions (S n) mask'
  end.

(** [PartitionSpec('y', 'z')] and [PartitionSpec(('z', 'y'))], parsed: the
    same axes, arranged in two dimensions and in one. *)
Definition spec_y_z : ParsedPartitionSpec :=
  mkParsed (UPartitionSpec [AxName "y"; AxName "z"]) [["y"]; ["z"]]%string.

Definition spec_zy : ParsedPartitionSpec :=
  mkParsed (UPartitionSpec [AxTuple ["z"; "y"]]) [["z"; "y"]]%string.

(** * Properties *)

(** ** Results and loops *)

Lemma for_each_Ok {A : Type} (body : A -> result unit) (l : list A) :
  for_each body l = Ok tt <-> Forall (fun x => body x = Ok tt) l.
Proof.
  induction l as [|x l IH]; simpl.
  - split; [constructor | reflexivity].
  - rewrite Forall_cons, <- IH. unfold mbind, result_bind.
    destruct (body x) as [[]|e] eqn:Hx; split.
    + intros H. split; [reflexivity | exact H].
    + intros [_ H]. exact H.
    + discriminate.
    + intros [H _]. discriminate.
Qed.

Lemma for_each_app_Ok {A : Type} (body : A -> result unit) (pre l : list A) :
  for_each body pre = Ok tt -> for_each body (pre ++ l) = for_each body l.
Proof.
  induction pre as [|x pre IH]; simpl; [reflexivity |].
  unfold mbind, result_bind.
  destruct (body x) as [[]|e]; [exact IH | discriminate].
Qed.

(** A failing loop stops at its first failing element. *)
Lemma for_each_Raise {A : Type} (body : A -> result unit) (l : list A) e :
  for_each body l = Raise e ->
  exists pre x post, l = pre ++ x :: post /\
    Forall (fun y => body y = Ok tt) pre /\ body x = Raise e.
Proof.
  induction l as [|x l IH]; simpl; [discriminate |].
  unfold mbind, result_bind. destruct (body x) as [[]|e'] eqn:Hx.
  - intros H. destruct (IH H) as (pre & y & post & -> & Hpre & Hy).
    exists (x :: pre), y, post.
    repeat split; [constructor; assumption | exact Hy].
  - intros [= ->]. exists [], x, l. repeat split; [constructor | exact Hx].
Qed.

Lemma comprehension_Ok {A B : Type} (f : A -> result B) (l : list A) ys :
  comprehension f l = Ok ys <-> Forall2 (fun x y => f x = Ok y) l ys.
Proof.
  revert ys. induction l as [|x l IH]; intros ys; simpl.
  - split; [intros [= <-]; constructor | intros H; inversion H; reflexivity].
  - unfold mbind, result_bind. destruct (f x) as [y|e] eqn:Hx.
    + destruct (comprehension f l) as [ys'|e] eqn:Hl.
      * split.
        -- intros [= <-]. constructor; [exact Hx | apply IH; reflexivity].
        -- intros H. inversion H as [|? y' ? ys'' Hy Hys]; subst.
           apply IH in Hys. congruence.
      * split; [discriminate |].
        intros H. inversion H as [|? y' ? ys'' Hy Hys]; subst.
        apply IH in Hys. discriminate.
    + split; [discriminate |].
      intros H. inversion H; subst. congruence.
Qed.

(** ** Trees *)

Lemma pytree_Forall_ind {A : Type} (P : pytree A -> Prop) :
  (forall a, P (PLeaf a)) ->
  (forall children, Forall P children -> P (PTuple children)) ->
  forall t, P t.
Proof.
  intros Hleaf Htuple. fix IH 1. intros [a|children].
  - apply Hleaf.
  - apply Htuple. induction children as [|c cs IHcs]; constructor.
    + apply IH.
    + exact IHcs.
Qed.

(** Filling the shape of a tree with as many leaves as the tree has gives a
    tree of that shape with exactly those leaves. *)
Lemma unflatten_from_structure {A B : Type} (t : pytree A) :
  forall (leaves rest : list B),
    length leaves = length (tree_leaves t) ->
    exists t' : pytree B,
      unflatten_from (tree_structure t) (leaves ++ rest) = Some (t', rest) /\
      tree_leaves t' = leaves /\ tree_structure t' = tree_structure t.
Proof.
  induction t as [a|children IH] using pytree_Forall_ind;
    intros leaves rest Hlen.
  - destruct leaves as [|x [|]]; simpl in Hlen; try discriminate.
    exists (PLeaf x). simpl. auto.
  - simpl tree_structure. simpl tree_leaves in Hlen.
    assert (exists ts : list (pytree B),
      (fix fill (ds : list treedef) (leaves : list B)
         : option (list (pytree B) * list B) :=
         match ds with
         | [] => Some ([], leaves)
         | d' :: ds' =>
             match unflatten_from d' leaves with
             | Some (t, rest) =>
                 match fill ds' rest with
                 | Some (ts, rest') => Some (t :: ts, rest')
                 | None => None
                 end
             | None => None
             end
         end) (map tree_structure children) (leaves ++ rest) = Some (ts, rest) /\
      flat_map tree_leaves ts = leaves /\
      map tree_structure ts = map tree_structure children) as (ts & Hfill & Hl & Hs).
    { revert leaves Hlen. induction IH as [|c cs Hc _ IHcs]; intros leaves Hlen.
      - destruct leaves; [| discriminate]. exists []. simpl. auto.
      - simpl in Hlen. rewrite length_app in Hlen.
        assert (leaves = take (length (tree_leaves c)) leaves
                         ++ drop (length (tree_leaves c)) leaves) as Hsplit
          by (symmetry; apply take_drop).
        destruct (Hc (take (length (tree_leaves c)) leaves)
                     (drop (length (tree_leaves c)) leaves ++ rest))
          as (t' & Ht' & Hl' & Hs').
        { rewrite length_take. lia. }
        destruct (IHcs (drop (length (tree_leaves c)) leaves))
          as (ts & Hts & Hls & Hss).
        { rewrite length_drop. lia. }
        exists (t' :: ts). simpl map.
        rewrite Hsplit at 1. rewrite <- app_assoc. rewrite Ht', Hts.
        simpl. rewrite Hl', Hls, Hs', Hss. rewrite take_drop. auto. }
    exists (PTuple ts). simpl. rewrite Hfill. simpl. rewrite Hl, Hs. auto.
Qed.

Lemma tree_unflatten_structure {A B : Type} (t : pytree A) (leaves : list B) :
  length leaves = length (tree_leaves t) ->
  exists t' : pytree B,
    tree_unflatten (tree_structure t) leaves = Ok t' /\ tree_leaves t' = leaves.
Proof.
  intros Hlen.
  destruct (unflatten_from_structure t leaves [] Hlen) as (t' & Hu & Hl & _).
  exists t'. unfold tree_unflatten. rewrite app_nil_r in Hu. rewrite Hu. auto.
Qed.

(** ** The parser *)

Lemma parser_eq_spec (a b : ParsedPartitionSpec) :
  Parser.eq a b = true <-> a = b.
Proof.
  unfold Parser.eq. rewrite bool_decide_eq_true.
  destruct a as [ua pa], b as [ub pb]; simpl. split.
  - intros [= -> ->]. reflexivity.
  - intros [= -> ->]. reflexivity.
Qed.

(** C6: two parsed placement specifications are equal exactly when their
    dimension sequences and their user declarations are equal; the hash is a
    function of that pair, so equal specifications have equal hashes. *)
Theorem parsed_spec_eq_hash_structural
    (hash_str : string -> Z) (hash_tuple : list Z -> Z)
    (a b : ParsedPartitionSpec) :
  (Parser.eq a b = true <->
     partitions a = partitions b /\ user_spec a = user_spec b) /\
  (partitions a = partitions b -> user_spec a = user_spec b ->
     ParsedPartitionSpec_hash hash_str hash_tuple a
     = ParsedPartitionSpec_hash hash_str hash_tuple b) /\
  (Parser.eq a b = true ->
     ParsedPartitionSpec_hash hash_str hash_tuple a
     = ParsedPartitionSpec_hash hash_str hash_tuple b).
Proof.
  split; [| split].
  - unfold Parser.eq. rewrite bool_decide_eq_true. split.
    + intros [= Hp Hu]. auto.
    + intros [-> ->]. reflexivity.
  - intros Hp _. unfold ParsedPartitionSpec_hash. rewrite Hp. reflexivity.
  - intros H. apply parser_eq_spec in H. rewrite H. reflexivity.
Qed.

(** The hash reads the dimensions only: the user declaration does not enter
    it. *)
Lemma parsed_spec_hash_ignores_user_spec
    (hash_str : string -> Z) (hash_tuple : list Z -> Z)
    (u1 u2 : user_input) (ps : list (list axis_name)) :
  ParsedPartitionSpec_hash hash_str hash_tuple (mkParsed u1 ps)
  = ParsedPartitionSpec_hash hash_str hash_tuple (mkParsed u2 ps).
Proof. reflexivity. Qed.

Lemma check_unique_one_replicated (arg_name : string) :
  check_unique_one arg_name Parser.REPLICATED = Ok tt.
Proof. reflexivity. Qed.

Lemma check_unique_replicate_replicated (arg_name : string) (n : nat) :
  _check_unique_resources (replicate n Parser.REPLICATED) arg_name = Ok tt.
Proof.
  unfold _check_unique_resources. apply for_each_Ok.
  apply Forall_replicate. apply check_unique_one_replicated.
Qed.

Lemma comprehension_all_None (what : string) (leaves : list user_input) :
  Forall (fun e => e = UNone) leaves ->
  comprehension (fun entry => Parser.from_user_input entry what) leaves
  = Ok (replicate (length leaves) Parser.REPLICATED).
Proof.
  intros H. apply comprehension_Ok.
  induction H as [|e l -> _ IH]; simpl; constructor; [reflexivity | exact IH].
Qed.

(** C7: [None] parses to [REPLICATED], the placement with no dimension: as a
    single entry, as the whole declaration, and at every leaf of a
    declaration that is a tree; a tree whose leaves are all [None] is
    accepted. *)
Theorem none_parses_to_replicated (arg_name : string) :
  Parser.from_user_input UNone arg_name = Ok Parser.REPLICATED /\
  partitions Parser.REPLICATED = [] /\
  _prepare_axis_resources None arg_name
  = Ok (PLeaf Parser.REPLICATED, [Parser.REPLICATED], TDNone) /\
  (forall tree parsed entries td,
     _prepare_axis_resources (Some tree) arg_name = Ok (parsed, entries, td) ->
     forall i, tree_leaves tree !! i = Some UNone ->
               entries !! i = Some Parser.REPLICATED) /\
  (forall tree,
     Forall (fun e => e = UNone) (tree_leaves tree) ->
     exists parsed,
       _prepare_axis_resources (Some tree) arg_name
       = Ok (parsed,
             replicate (length (tree_leaves tree)) Parser.REPLICATED,
             tree_structure tree)).
Proof.
  repeat split.
  - intros tree parsed entries td H i Hi.
    unfold _prepare_axis_resources, tree_flatten in H.
    unfold mbind, result_bind in H.
    destruct (comprehension _ (tree_leaves tree)) as [es|e] eqn:Hes;
      [| discriminate].
    destruct (_check_unique_resources es arg_name); [| discriminate].
    destruct (tree_unflatten (tree_structure tree) es); [| discriminate].
    injection H as _ <- _.
    apply comprehension_Ok in Hes.
    destruct (Forall2_lookup_l _ _ _ _ _ Hes Hi) as (y & Hy & Hf).
    simpl in Hf. injection Hf as <-. exact Hy.
  - intros tree Hall.
    destruct (tree_unflatten_structure tree
                (replicate (length (tree_leaves tree)) Parser.REPLICATED))
      as (t' & Ht' & _).
    { apply length_replicate. }
    exists t'. unfold _prepare_axis_resources, tree_flatten.
    rewrite (comprehension_all_None _ _ Hall).
    unfold mbind, result_bind.
    rewrite check_unique_replicate_replicated, Ht'. reflexivity.
Qed.

(** ** The sharding constraint *)

(** C8: the transpose rule of the sharding constraint returns, for the one
    operand, the sharding constraint itself bound on the cotangent with the
    placement and the resource environment it was given; the cotangent it
    returns has the abstract value of the cotangent it received. *)
Theorem sharding_constraint_self_adjoint (ct x : traced)
    (axis_resources : ParsedPartitionSpec) (resource_env : ResourceEnv) :
  sharding_constraint_transpose ct x axis_resources resource_env
  = [sharding_constraint_bind ct axis_resources resource_env] /\
  sharding_constraint_bind ct axis_resources resource_env
  = ShardingConstraint ct axis_resources resource_env /\
  Forall (fun ct' => traced_aval ct' = traced_aval ct)
         (sharding_constraint_transpose ct x axis_resources resource_env) /\
  sharding_constraint_transpose ct x axis_resources resource_env
  = sharding_constraint_transpose ct
      (sharding_constraint_bind x axis_resources resource_env)
      axis_resources resource_env.
Proof.
  repeat split. constructor; [reflexivity | constructor].
Qed.

(** ** Counters *)

Lemma counter_get_add (r r' : axis_name) (c : Counter.t) :
  Counter.get r (Counter.add r' c)
  = Counter.get r c + (if decide (r' = r) then 1 else 0).
Proof.
  induction c as [|[k n] c IH]; simpl.
  - destruct (decide (r' = r)); reflexivity.
  - destruct (decide (k = r')) as [->|Hk]; simpl.
    + destruct (decide (r' = r)); lia.
    + destruct (decide (k = r)) as [->|Hkr].
      * destruct (decide (r' = r)); [congruence | lia].
      * exact IH.
Qed.

Lemma counter_add_keys (r : axis_name) (c : Counter.t) k :
  k ∈ map fst (Counter.add r c) <-> k = r \/ k ∈ map fst c.
Proof.
  induction c as [|[k' n] c IH]; simpl.
  - rewrite list_elem_of_singleton.
    split; [auto | intros [H|H]; [exact H | inversion H]].
  - destruct (decide (k' = r)) as [->|Hk]; simpl.
    + rewrite !elem_of_cons. tauto.
    + rewrite !elem_of_cons, IH. tauto.
Qed.

Lemma counter_add_wf (r : axis_name) (c : Counter.t) :
  counter_wf c -> counter_wf (Counter.add r c).
Proof.
  intros [Hnd Hpos]. split.
  - induction c as [|[k n] c IH]; simpl.
    + apply NoDup_singleton.
    + simpl in Hnd. apply NoDup_cons in Hnd as [Hk Hnd].
      inversion Hpos as [|? ? _ Hpos']; subst.
      destruct (decide (k = r)) as [->|Hkr]; simpl.
      * apply NoDup_cons. auto.
      * apply NoDup_cons. split; [| auto].
        rewrite counter_add_keys. intros [->|H]; [congruence | auto].
  - induction Hpos as [|[k n] c Hk Hpos IH]; simpl.
    + constructor; [simpl; lia | constructor].
    + simpl in Hnd. apply NoDup_cons in Hnd as [_ Hnd].
      destruct (decide (k = r)); constructor; simpl in *; auto; lia.
Qed.

Lemma counter_fold_wf (l : list axis_name) (c : Counter.t) :
  counter_wf c -> counter_wf (foldl (fun c r => Counter.add r c) c l).
Proof.
  revert c. induction l as [|r l IH]; intros c Hc; simpl; [exact Hc |].
  apply IH, counter_add_wf, Hc.
Qed.

Lemma counter_fold_get (r : axis_name) (l : list axis_name) (c : Counter.t) :
  Counter.get r (foldl (fun c r => Counter.add r c) c l)
  = Counter.get r c + occurrences r l.
Proof.
  revert c. induction l as [|x l IH]; intros c; simpl.
  - unfold occurrences. simpl. lia.
  - rewrite IH, counter_get_add. unfold occurrences.
    rewrite filter_cons. destruct (decide (x = r)); simpl; lia.
Qed.

Lemma counter_of_list_wf (l : list axis_name) : counter_wf (Counter.of_list l).
Proof.
  apply counter_fold_wf. split; [apply NoDup_nil_2 | constructor].
Qed.

Lemma counter_of_list_get (r : axis_name) (l : list axis_name) :
  Counter.get r (Counter.of_list l) = occurrences r l.
Proof. unfold Counter.of_list. rewrite counter_fold_get. reflexivity. Qed.

(** In a well-formed counter the entries are the keys with their counts. *)
Lemma counter_elem_of (c : Counter.t) (r : axis_name) (n : nat) :
  counter_wf c -> ((r, n) ∈ c <-> Counter.get r c = n /\ 0 < n).
Proof.
  intros [Hnd Hpos]. induction c as [|[k m] c IH]; simpl.
  - split; [intros H; inversion H | lia].
  - simpl in Hnd. apply NoDup_cons in Hnd as [Hk Hnd].
    inversion Hpos as [|? ? Hm Hpos']; subst. simpl in Hm.
    rewrite elem_of_cons. destruct (decide (k = r)) as [->|Hkr].
    + split.
      * intros [[= ->]|H]; [lia |].
        exfalso. apply Hk. apply list_elem_of_fmap. exists (r, n). auto.
      * intros [-> _]. left. reflexivity.
    + rewrite (IH Hnd Hpos'). split.
      * intros [[= -> ->]|H]; [congruence | exact H].
      * intros H. right. exact H.
Qed.

Lemma first_max_spec (best : axis_name * nat) (c : Counter.t) :
  Counter.first_max best c ∈ best :: c /\
  Forall (fun e => snd e <= snd (Counter.first_max best c)) (best :: c).
Proof.
  revert best. induction c as [|[k n] c IH]; intros best; simpl.
  - split; [left | constructor; [lia | constructor]].
  - destruct (Nat.ltb_spec (snd best) n) as [Hlt|Hge].
    + destruct (IH (k, n)) as [Hin Hall]. split.
      * right. exact Hin.
      * inversion Hall as [|? ? Hkn Hc]; subst. simpl in Hkn.
        constructor; [lia |]. constructor; [exact Hkn | exact Hc].
    + destruct (IH best) as [Hin Hall]. split.
      * apply elem_of_cons in Hin as [->|Hin]; [left | right; right; exact Hin].
      * inversion Hall as [|? ? Hb Hc]; subst.
        constructor; [exact Hb |]. constructor; [simpl; lia | exact Hc].
Qed.

(** The count [most_common(1)] reports bounds every count. *)
Lemma most_common_1_spec (c : Counter.t) (r : axis_name) (n : nat) :
  (r, n) ∈ c ->
  exists k top rest,
    Counter.most_common_1 c = (k, top) :: rest /\ n <= top /\ (k, top) ∈ c.
Proof.
  destruct c as [|e c]; [intros H; inversion H |]. intros Hin. simpl.
  destruct (first_max_spec e c) as [Hm Hall].
  destruct (Counter.first_max e c) as [k top] eqn:Hfm.
  exists k, top, []. split; [reflexivity |]. split; [| exact Hm].
  rewrite Forall_forall in Hall. apply (Hall (r, n)). exact Hin.
Qed.

Lemma occurrences_app (r : axis_name) (l1 l2 : list axis_name) :
  occurrences r (l1 ++ l2) = occurrences r l1 + occurrences r l2.
Proof. unfold occurrences. rewrite filter_app, length_app. reflexivity. Qed.

Lemma occurrences_elem_of (r : axis_name) (l : list axis_name) :
  r ∈ l <-> 0 < occurrences r l.
Proof.
  unfold occurrences. induction l as [|x l IH]; simpl.
  - split; [intros H; inversion H | lia].
  - rewrite filter_cons, elem_of_cons.
    destruct (decide (x = r)) as [->|Hx]; simpl.
    + split; [lia | auto].
    + rewrite IH. split; [intros [H|H]; [congruence | exact H] | auto].
Qed.

Lemma occurrences_concat_lookup (r : axis_name) (ls : list (list axis_name))
    (i : nat) (d : list axis_name) :
  ls !! i = Some d -> 
  occurrences r (concat ls)
  = occurrences r (concat (take i ls)) + occurrences r d
    + occurrences r (concat (drop (S i) ls)).
Proof.
  intros Hi. rewrite <- (take_drop_middle ls i d Hi) at 1.
  rewrite concat_app, occurrences_app. simpl.
  rewrite occurrences_app. lia.
Qed.

(** An axis written in two different dimensions occurs at least twice. *)
Lemma occurrences_two_dimensions (r : axis_name) (ls : list (list axis_name))
    (i j : nat) (di dj : list axis_name) :
  i <> j -> ls !! i = Some di -> ls !! j = Some dj -> r ∈ di -> r ∈ dj ->
  1 < occurrences r (concat ls).
Proof.
  assert (forall i j di dj, i < j -> ls !! i = Some di -> ls !! j = Some dj ->
            r ∈ di -> r ∈ dj -> 1 < occurrences r (concat ls)) as Hlt.
  { clear. intros i j di dj Hij Hi Hj Hri Hrj.
    rewrite (occurrences_concat_lookup r ls i di Hi).
    assert (drop (S i) ls !! (j - S i) = Some dj) as Hj'.
    { rewrite lookup_drop. replace (S i + (j - S i)) with j by lia. exact Hj. }
    rewrite (occurrences_concat_lookup r _ _ dj Hj').
    apply occurrences_elem_of in Hri, Hrj. lia. }
  intros Hne Hi Hj Hri Hrj.
  destruct (Nat.lt_total i j) as [H|[H|H]]; [eauto | congruence | eauto].
Qed.

(** ** The uniqueness checker *)

Lemma check_unique_one_empty (arg_name : string) (spec : ParsedPartitionSpec) :
  partitions spec = [] -> check_unique_one arg_name spec = Ok tt.
Proof.
  intros H. unfold check_unique_one, Parser.truthy, Parser.len.
  rewrite H. reflexivity.
Qed.

Lemma counter_filter_keys_NoDup (P : axis_name * nat -> Prop)
    `{forall e, Decision (P e)} (c : list (axis_name * nat)) :
  NoDup (map fst c) -> NoDup (map fst (filter P c)).
Proof.
  induction c as [|[k n] c IH]; intros Hnd; [apply NoDup_nil_2 |].
  simpl in Hnd. apply NoDup_cons in Hnd as [Hk Hnd].
  rewrite filter_cons. destruct (decide (P (k, n))); [| auto].
  simpl. apply NoDup_cons. split; [| auto].
  intros Hin. apply Hk. apply list_elem_of_fmap in Hin as (e & -> & He).
  apply list_elem_of_filter in He as [_ He].
  apply list_elem_of_fmap. exists e. auto.
Qed.

(** A placement in which some axis is written more than once is refused,
    and the error lists the axes written more than once, each once, in the
    order in which they first appear. *)
Lemma check_unique_one_duplicates (arg_name : string)
    (spec : ParsedPartitionSpec) (r : axis_name) :
  1 < occurrences r (concat (partitions spec)) ->
  exists multiple_uses,
    check_unique_one arg_name spec
    = Raise (ValueError (DuplicateEntries arg_name spec multiple_uses)) /\
    NoDup multiple_uses /\
    forall r', r' ∈ multiple_uses
               <-> 1 < occurrences r' (concat (partitions spec)).
Proof.
  intros Hr. unfold check_unique_one.
  assert (partitions spec <> []) as Hne.
  { intros E. rewrite E in Hr. unfold occurrences in Hr. simpl in Hr. lia. }
  unfold Parser.truthy, Parser.len.
  destruct (partitions spec) as [|d ds] eqn:Hp; [congruence |].
  simpl negb. cbv iota.
  set (c := Counter.of_list (concat (d :: ds))).
  assert (counter_wf c) as Hwf by apply counter_of_list_wf.
  assert (forall r' n, (r', n) ∈ c
            <-> occurrences r' (concat (d :: ds)) = n /\ 0 < n) as Hc.
  { intros r' n. rewrite (counter_elem_of c r' n Hwf).
    unfold c. rewrite counter_of_list_get. reflexivity. }
  assert ((r, occurrences r (concat (d :: ds))) ∈ c) as Hin
    by (apply Hc; lia).
  destruct (most_common_1_spec c _ _ Hin) as (k & top & rest & Hmc & Htop & _).
  rewrite Hmc.
  destruct (Nat.ltb_spec 1 top) as [_|Hle]; [| lia].
  assert (forall r', r' ∈ map fst (filter (fun rc => 1 < snd rc) c)
            <-> 1 < occurrences r' (concat (d :: ds))) as Hmu.
  { intros r'. rewrite list_elem_of_fmap. split.
    - intros ([r'' n] & -> & Hf). apply list_elem_of_filter in Hf as [Hn Hf].
      apply Hc in Hf as [<- _]. exact Hn.
    - intros Hr'. exists (r', occurrences r' (concat (d :: ds))).
      split; [reflexivity |]. apply list_elem_of_filter.
      split; [exact Hr' | apply Hc; lia]. }
  destruct (map fst (filter (fun rc => 1 < snd rc) c)) as [|m ms] eqn:Hms.
  - exfalso. apply (proj2 (Hmu r)) in Hr. inversion Hr.
  - exists (m :: ms). split; [reflexivity |]. split; [| exact Hmu].
    rewrite <- Hms. apply counter_filter_keys_NoDup. apply Hwf.
Qed.

(** C3: a placement with dimensions in which some resource axis appears in
    more than one dimension makes the uniqueness checker raise a
    [ValueError] that lists exactly the axes occurring more than once; a
    placement with no dimension, as [REPLICATED], is accepted and skipped. *)
Theorem check_unique_resources_duplicates (arg_name : string) :
  (forall (pre post : list ParsedPartitionSpec) (spec : ParsedPartitionSpec)
          (r : axis_name) (i j : nat) (di dj : list axis_name),
     partitions spec <> [] ->
     i <> j ->
     partitions spec !! i = Some di -> partitions spec !! j = Some dj ->
     r ∈ di -> r ∈ dj ->
     _check_unique_resources pre arg_name = Ok tt ->
     exists multiple_uses,
       _check_unique_resources (pre ++ spec :: post) arg_name
       = Raise (ValueError (DuplicateEntries arg_name spec multiple_uses)) /\
       NoDup multiple_uses /\
       forall r', r' ∈ multiple_uses
                  <-> 1 < occurrences r' (concat (partitions spec))) /\
  (forall (spec : ParsedPartitionSpec) (rest : list ParsedPartitionSpec),
     partitions spec = [] ->
     _check_unique_resources (spec :: rest) arg_name
     = _check_unique_resources rest arg_name) /\
  (forall rest : list ParsedPartitionSpec,
     _check_unique_resources (Parser.REPLICATED :: rest) arg_name
     = _check_unique_resources rest arg_name) /\
  _check_unique_resources [Parser.REPLICATED] arg_name = Ok tt.
Proof.
  split; [| split; [| split]].
  - intros pre post spec r i j di dj _ Hij Hi Hj Hri Hrj Hpre.
    destruct (check_unique_one_duplicates arg_name spec r)
      as (mu & Hraise & Hnd & Hmu).
    { eapply occurrences_two_dimensions; eauto. }
    exists mu. split; [| auto].
    unfold _check_unique_resources in *.
    rewrite (for_each_app_Ok _ _ _ Hpre). simpl. rewrite Hraise. reflexivity.
  - intros spec rest Hp. unfold _check_unique_resources. simpl.
    rewrite (check_unique_one_empty _ _ Hp). reflexivity.
  - intros rest. reflexivity.
  - reflexivity.
Qed.

Lemma check_unique_resources_duplicates_witness :
  exists multiple_uses,
    _check_unique_resources ([Parser.REPLICATED] ++ [spec_x_yx])
                            "in_axis_resources"%string
    = Raise (ValueError (DuplicateEntries "in_axis_resources"%string spec_x_yx
                                          multiple_uses)) /\
    NoDup multiple_uses /\
    forall r', r' ∈ multiple_uses
               <-> 1 < occurrences r' (concat (partitions spec_x_yx)).
Proof.
  apply (proj1 (check_unique_resources_duplicates "in_axis_resources"%string)
           [Parser.REPLICATED] [] spec_x_yx
           "x"%string 0 1 ["x"%string] ["y"; "x"]%string).
  - discriminate.
  - lia.
  - reflexivity.
  - reflexivity.
  - apply list_elem_of_In. simpl. auto.
  - apply list_elem_of_In. simpl. auto.
  - reflexivity.
Defined.

(** A placement with dimensions of which none names an axis: the counter is
    empty and reading its most common entry raises [IndexError]. *)
Example check_unique_one_all_dimensions_empty :
  check_unique_one "in_axis_resources"
    (mkParsed (UPartitionSpec [AxNone]) [[]]) = Raise IndexError.
Proof. reflexivity. Qed.

Example check_unique_one_reports_in_order :
  check_unique_one "in_axis_resources"
    (mkParsed (UPartitionSpec [AxTuple ["y"; "x"]; AxTuple ["x"; "y"; "z"]])
              [["y"; "x"]; ["x"; "y"; "z"]])%string
  = Raise (ValueError (DuplicateEntries "in_axis_resources"
      (mkParsed (UPartitionSpec [AxTuple ["y"; "x"]; AxTuple ["x"; "y"; "z"]])
                [["y"; "x"]; ["x"; "y"; "z"]]) ["y"; "x"]))%string.
Proof. reflexivity. Qed.

(** ** The shape/resource validator *)

Lemma int64_wrap_small (z : Z) :
  (- 2 ^ 63 <= z < 2 ^ 63)%Z -> int64_wrap z = z.
Proof.
  intros H. unfold int64_wrap. rewrite Z.mod_small; lia.
Qed.

Lemma product_pos (l : list Z) :
  Forall (fun x => (0 < x)%Z) l -> (0 < product l)%Z.
Proof.
  induction 1 as [|x l Hx _ IH]; simpl; lia.
Qed.

(** Below the 64-bit bound the product of numpy is the product. *)
Lemma np_prod_int64_product (l : list Z) :
  Forall (fun x => (0 < x)%Z) l -> (product l < 2 ^ 63)%Z ->
  np_prod_int64 l = product l.
Proof.
  unfold np_prod_int64.
  assert (forall acc, (0 < acc)%Z -> Forall (fun x => (0 < x)%Z) l ->
            (acc * product l < 2 ^ 63)%Z ->
            foldl (fun acc x => int64_wrap (acc * x)) acc l
            = (acc * product l)%Z) as Hgen.
  { induction l as [|x l IH]; intros acc Hacc Hall Hlt; simpl.
    - lia.
    - inversion Hall as [|? ? Hx Hl]; subst. simpl in Hlt.
      pose proof (product_pos l Hl) as Hp.
      assert (0 < acc * x)%Z as Hax by lia.
      assert (acc * x <= acc * x * product l)%Z as Hle by nia.
      rewrite int64_wrap_small by lia.
      rewrite IH; [lia | lia | exact Hl | lia]. }
  intros Hall Hlt. rewrite Hgen; [lia | lia | exact Hall | lia].
Qed.

(** Reading the sizes of the axes of a dimension: all of them, or the
    [KeyError] of the first axis that is no key. *)
Lemma comprehension_getitem_size (resource_sizes : gmap axis_name Z)
    (axes : list axis_name) :
  (Forall (fun r => is_Some (resource_sizes !! r)) axes /\
   comprehension (getitem_size resource_sizes) axes
   = Ok (map (fun r => default 1%Z (resource_sizes !! r)) axes)) \/
  (exists r, r ∈ axes /\ resource_sizes !! r = None /\
             comprehension (getitem_size resource_sizes) axes
             = Raise (KeyError r)).
Proof.
  induction axes as [|r axes IH]; simpl.
  - left. split; [constructor | reflexivity].
  - destruct (resource_sizes !! r) as [size|] eqn:Hr.
    + assert (getitem_size resource_sizes r = Ok size) as ->
        by (unfold getitem_size; rewrite Hr; reflexivity).
      destruct IH as [[Hall Hc]|(r' & Hin & Hnone & Hc)];
        unfold mbind, result_bind; rewrite Hc.
      * left. split; [constructor; [eauto | exact Hall] | reflexivity].
      * right. exists r'. split; [right; exact Hin | auto].
    + assert (getitem_size resource_sizes r = Raise (KeyError r)) as ->
        by (unfold getitem_size; rewrite Hr; reflexivity).
      right. exists r. split; [left | auto].
Qed.

Lemma mesh_sizes_default (resource_sizes : gmap axis_name Z)
    (axes : list axis_name) :
  mesh_sizes resource_sizes ->
  Forall (fun x => (0 < x)%Z)
         (map (fun r => default 1%Z (resource_sizes !! r)) axes).
Proof.
  intros Hmesh. apply Forall_map, Forall_forall. intros r _. simpl.
  destruct (resource_sizes !! r) as [size|] eqn:Hr; simpl; [| lia].
  exact (Hmesh r size Hr).
Qed.

(** What the inner loop does with one dimension of a mesh. *)
Lemma check_dimension_cases (what : string) (resource_sizes : gmap axis_name Z)
    (spec : ParsedPartitionSpec) (shape : list Z) (i : nat)
    (axes : list axis_name) (dim : Z) :
  mesh_sizes resource_sizes ->
  (resource_size resource_sizes axes < 2 ^ 63)%Z ->
  shape !! i = Some dim ->
  (Forall (fun r => is_Some (resource_sizes !! r)) axes /\
   (resource_size resource_sizes axes | dim)%Z /\
   check_dimension what resource_sizes spec shape i axes = Ok tt) \/
  (Forall (fun r => is_Some (resource_sizes !! r)) axes /\
   ~ (resource_size resource_sizes axes | dim)%Z /\
   check_dimension what resource_sizes spec shape i axes
   = Raise (ValueError
       (NotDivisible what spec i (resource_size resource_sizes axes) dim))) \/
  (exists r, r ∈ axes /\ resource_sizes !! r = None /\
     check_dimension what resource_sizes spec shape i axes
     = Raise (ValueError (UndefinedAxis what spec r))).
Proof.
  intros Hmesh Hfit Hdim. unfold check_dimension.
  destruct (comprehension_getitem_size resource_sizes axes)
    as [[Hall ->]|(r & Hin & Hnone & ->)].
  - pose proof (mesh_sizes_default resource_sizes axes Hmesh) as Hpos.
    rewrite (np_prod_int64_product _ Hpos Hfit).
    fold (resource_size resource_sizes axes).
    pose proof (product_pos _ Hpos) as Hp.
    fold (resource_size resource_sizes axes) in Hp.
    rewrite Hdim.
    destruct (Z.eqb_spec (resource_size resource_sizes axes) 0) as [E|_];
      [lia |].
    destruct (Z.eqb_spec (dim mod resource_size resource_sizes axes) 0)
      as [E|E]; simpl.
    + left. split; [exact Hall |]. split; [| reflexivity].
      apply Z.mod_divide; [lia | exact E].
    + right. left. split; [exact Hall |]. split; [| reflexivity].
      intros Hd. apply E. apply Z.mod_divide; [lia | exact Hd].
  - right. right. exists r. auto.
Qed.

Lemma enumerate_lookup {A : Type} (l : list A) (k : nat) :
  enumerate l !! k = (fun x => (k, x)) <$> l !! k.
Proof.
  unfold enumerate. rewrite lookup_zip_with.
  destruct (l !! k) as [x|] eqn:Hk.
  - rewrite lookup_seq_lt by (eapply lookup_lt_Some; eassumption).
    reflexivity.
  - destruct (seq 0 (length l) !! k); reflexivity.
Qed.

Lemma elem_of_enumerate {A : Type} (l : list A) (i : nat) (x : A) :
  (i, x) ∈ enumerate l <-> l !! i = Some x.
Proof.
  rewrite list_elem_of_lookup. split.
  - intros [k Hk]. rewrite enumerate_lookup in Hk.
    destruct (l !! k) as [y|] eqn:Hy; simpl in Hk; [| discriminate].
    injection Hk as <- <-. exact Hy.
  - intros Hi. exists i. rewrite enumerate_lookup, Hi. reflexivity.
Qed.

Lemma check_shape_Ok (what : string) (resource_sizes : gmap axis_name Z)
    (shape : list Z) (spec : ParsedPartitionSpec) :
  mesh_sizes resource_sizes -> sizes_fit resource_sizes spec ->
  check_shape what resource_sizes shape spec = Ok tt
  <-> compatible resource_sizes shape spec.
Proof.
  intros Hmesh Hfit. unfold check_shape, compatible.
  destruct (Nat.ltb_spec (length shape) (Parser.len spec)) as [Hlt|Hge].
  - split; [discriminate | intros [H _]; lia].
  - rewrite for_each_Ok, Forall_forall.
    assert (forall i axes, partitions spec !! i = Some axes ->
              exists dim, shape !! i = Some dim) as Hdim.
    { intros i axes Hi. apply lookup_lt_is_Some.
      apply lookup_lt_Some in Hi. unfold Parser.len in Hge. lia. }
    split.
    + intros Hall. split; [exact Hge |]. split.
      * intros axes r Hax Hr.
        apply list_elem_of_lookup in Hax as [i Hi].
        destruct (Hdim i axes Hi) as [dim Hd].
        specialize (Hall (i, axes) (proj2 (elem_of_enumerate _ _ _) Hi)).
        simpl in Hall.
        destruct (check_dimension_cases what resource_sizes spec shape i axes
                    dim Hmesh) as [(Hdef & _ & _)|[(_ & _ & E)|(? & _ & _ & E)]];
          [apply Hfit; eapply list_elem_of_lookup_2; eassumption | exact Hd
          | | congruence | congruence].
        rewrite Forall_forall in Hdef. apply Hdef, Hr.
      * intros i axes dim Hi Hd.
        specialize (Hall (i, axes) (proj2 (elem_of_enumerate _ _ _) Hi)).
        simpl in Hall.
        destruct (check_dimension_cases what resource_sizes spec shape i axes
                    dim Hmesh) as [(_ & Hdiv & _)|[(_ & _ & E)|(? & _ & _ & E)]];
          [apply Hfit; eapply list_elem_of_lookup_2; eassumption | exact Hd
          | exact Hdiv | congruence | congruence].
    + intros (_ & Hdef & Hdiv) [i axes] Hin.
      apply elem_of_enumerate in Hin.
      destruct (Hdim i axes Hin) as [dim Hd].
      destruct (check_dimension_cases what resource_sizes spec shape i axes
                  dim Hmesh) as [(_ & _ & E)|[(_ & Hn & _)|(r & Hr & Hnone & _)]];
        [apply Hfit; eapply list_elem_of_lookup_2; eassumption | exact Hd
        | exact E | |].
      * exfalso. apply Hn. eapply Hdiv; eassumption.
      * exfalso.
        destruct (Hdef axes r (list_elem_of_lookup_2 _ _ _ Hin) Hr) as [? E].
        congruence.
Qed.

Lemma check_shape_Raise (what : string) (resource_sizes : gmap axis_name Z)
    (shape : list Z) (spec : ParsedPartitionSpec) (e : exn) :
  mesh_sizes resource_sizes -> sizes_fit resource_sizes spec ->
  check_shape what resource_sizes shape spec = Raise e ->
  refusal what resource_sizes shape spec e.
Proof.
  intros Hmesh Hfit. unfold check_shape, refusal.
  destruct (Nat.ltb_spec (length shape) (Parser.len spec)) as [Hlt|Hge].
  - intros [= <-]. left. auto.
  - intros H. apply for_each_Raise in H
      as (pre & [i axes] & post & Hsplit & _ & Hbody).
    assert (partitions spec !! i = Some axes) as Hi.
    { apply elem_of_enumerate. rewrite Hsplit.
      apply elem_of_app. right. left. }
    assert (exists dim, shape !! i = Some dim) as [dim Hd].
    { apply lookup_lt_is_Some. apply lookup_lt_Some in Hi.
      unfold Parser.len in Hge. lia. }
    simpl in Hbody.
    destruct (check_dimension_cases what resource_sizes spec shape i axes
                dim Hmesh) as [(_ & _ & E)|[(_ & Hn & E)|(r & Hr & Hnone & E)]];
      [apply Hfit; eapply list_elem_of_lookup_2; eassumption | exact Hd
      | congruence | |].
    + right. right. exists i, axes, dim.
      rewrite E in Hbody. injection Hbody as <-. auto.
    + right. left. exists r, axes.
      rewrite E in Hbody. injection Hbody as <-.
      split; [reflexivity |]. split; [| auto].
      eapply list_elem_of_lookup_2; eassumption.
Qed.

Lemma check_shape_replicated (what : string) (resource_sizes : gmap axis_name Z)
    (shape : list Z) :
  check_shape what resource_sizes shape Parser.REPLICATED = Ok tt.
Proof. reflexivity. Qed.

(** C1: on a mesh whose resources can be counted in 64 bits, the validator
    accepts a sequence of values with their placements exactly when every
    pair it examines is compatible: the rank is at least the number of
    placement dimensions, every axis of the placement is a key of
    [local_shape], and each declared dimension is a multiple of the product
    of the sizes of its axes. When it refuses, the [ValueError] names a
    condition that fails for a pair it examined. [REPLICATED] passes for
    every shape, on any environment. *)
Theorem check_shapes_against_resources_spec {value : Type}
    (get_aval : value -> ShapedArray) (what : string) :
  (forall (resource_env : ResourceEnv) (flat_vals : list value)
          (flat_axis_resources : list ParsedPartitionSpec),
     mesh_sizes (local_shape resource_env) ->
     Forall (sizes_fit (local_shape resource_env)) flat_axis_resources ->
     (_check_shapes_against_resources get_aval what resource_env flat_vals
                                      flat_axis_resources = Ok tt
      <-> forall val spec, (val, spec) ∈ zip flat_vals flat_axis_resources ->
            compatible (local_shape resource_env) (shape (get_aval val)) spec) /\
     (forall e,
        _check_shapes_against_resources get_aval what resource_env flat_vals
                                        flat_axis_resources = Raise e ->
        exists val spec,
          (val, spec) ∈ zip flat_vals flat_axis_resources /\
          ~ compatible (local_shape resource_env) (shape (get_aval val)) spec /\
          refusal what (local_shape resource_env) (shape (get_aval val))
                  spec e)) /\
  (forall (resource_env : ResourceEnv) (val : value),
     _check_shapes_against_resources get_aval what resource_env [val]
                                     [Parser.REPLICATED] = Ok tt) /\
  (forall (resource_env : ResourceEnv) (flat_vals : list value),
     _check_shapes_against_resources get_aval what resource_env flat_vals
       (replicate (length flat_vals) Parser.REPLICATED) = Ok tt).
Proof.
  split; [| split].
  - intros resource_env flat_vals flat_axis_resources Hmesh Hfit.
    assert (forall val spec, (val, spec) ∈ zip flat_vals flat_axis_resources ->
              sizes_fit (local_shape resource_env) spec) as Hfit'.
    { intros val spec Hin. rewrite Forall_forall in Hfit. apply Hfit.
      apply (elem_of_zip_r _ _ _ _ Hin). }
    unfold _check_shapes_against_resources. split.
    + rewrite for_each_Ok, Forall_forall. split.
      * intros Hall val spec Hin.
        apply (check_shape_Ok what); [exact Hmesh | eauto |].
        exact (Hall (val, spec) Hin).
      * intros Hall [val spec] Hin.
        apply check_shape_Ok; [exact Hmesh | eauto | auto].
    + intros e H. apply for_each_Raise in H
        as (pre & [val spec] & post & Hsplit & _ & Hbody).
      assert ((val, spec) ∈ zip flat_vals flat_axis_resources) as Hin
        by (rewrite Hsplit; apply elem_of_app; right; left).
      exists val, spec. split; [exact Hin |]. split.
      * intros Hc. apply (check_shape_Ok what) in Hc;
          [congruence | exact Hmesh | eauto].
      * apply check_shape_Raise; [exact Hmesh | eauto | exact Hbody].
  - intros resource_env val. reflexivity.
  - intros resource_env flat_vals.
    unfold _check_shapes_against_resources. apply for_each_Ok.
    apply Forall_forall. intros [val spec] Hin.
    apply elem_of_zip_r in Hin. apply elem_of_replicate in Hin as [-> _].
    reflexivity.
Qed.

Lemma mesh_x2_sizes : mesh_sizes (local_shape mesh_x2).
Proof. apply map_Forall_singleton. reflexivity. Qed.

Lemma spec_x_fits : sizes_fit (local_shape mesh_x2) spec_x.
Proof.
  intros axes Hin. apply list_elem_of_singleton in Hin as ->.
  reflexivity.
Qed.

Lemma check_shapes_against_resources_spec_witness :
  (_check_shapes_against_resources aval_of_shape "pjit arguments"%string
     mesh_x2 [[8%Z]; [7%Z]] [spec_x; spec_x] = Ok tt
   <-> forall val spec, (val, spec) ∈ zip [[8%Z]; [7%Z]] [spec_x; spec_x] ->
         compatible (local_shape mesh_x2) (shape (aval_of_shape val)) spec) /\
  (forall e,
     _check_shapes_against_resources aval_of_shape "pjit arguments"%string
       mesh_x2 [[8%Z]; [7%Z]] [spec_x; spec_x] = Raise e ->
     exists val spec,
       (val, spec) ∈ zip [[8%Z]; [7%Z]] [spec_x; spec_x] /\
       ~ compatible (local_shape mesh_x2) (shape (aval_of_shape val)) spec /\
       refusal "pjit arguments"%string (local_shape mesh_x2)
               (shape (aval_of_shape val)) spec e).
Proof.
  apply (proj1 (check_shapes_against_resources_spec aval_of_shape
                  "pjit arguments"%string) mesh_x2 [[8%Z]; [7%Z]]
               [spec_x; spec_x]).
  - exact mesh_x2_sizes.
  - repeat constructor; exact spec_x_fits.
Defined.

(** Scenario D of the specification: a length of 7 over two resources. *)
Example check_shapes_length_7 :
  _check_shapes_against_resources aval_of_shape "pjit arguments"%string
    mesh_x2 [[7%Z]] [spec_x]
  = Raise (ValueError (NotDivisible "pjit arguments"%string spec_x 0 2 7)).
Proof. vm_compute. reflexivity. Qed.

(** Scenario C: an axis the mesh does not have. *)
Example check_shapes_undefined_axis :
  _check_shapes_against_resources aval_of_shape "pjit arguments"%string
    mesh_x2 [[8%Z; 4%Z]] [spec_x_yx]
  = Raise (ValueError (UndefinedAxis "pjit arguments"%string spec_x_yx
                                     "y"%string)).
Proof. vm_compute. reflexivity. Qed.

(** The product of numpy wraps around at 64 bits. *)
Example np_prod_int64_wraps :
  np_prod_int64 [6%Z; 3074457345618258603%Z] = 2%Z.
Proof. vm_compute. reflexivity. Qed.

(** Outside meshes the validator divides by what it finds: an axis of size
    zero makes the remainder raise [ZeroDivisionError]. *)
Example check_shape_size_zero :
  check_shape "pjit arguments"%string {[ "x"%string := 0%Z ]} [8%Z] spec_x
  = Raise ZeroDivisionError.
Proof. vm_compute. reflexivity. Qed.

(** ** The partial-evaluation rewrite *)

Lemma filter_zip_length {A : Type} (l : list A) (mask : list bool) :
  length l = length mask -> length (filter_zip l mask) = count_true mask.
Proof.
  unfold filter_zip, count_true. revert mask.
  induction l as [|x l IH]; intros [|b mask] Hlen; simpl in Hlen;
    try discriminate; [reflexivity |].
  simpl zip_with. rewrite !filter_cons. simpl.
  destruct b; simpl.
  - destruct (decide (true = true)); [| congruence]. simpl. f_equal.
    apply IH. lia.
  - destruct (decide (false = true)); [discriminate |].
    apply IH. lia.
Qed.

Lemma filter_zip_nil_r {A : Type} (l : list A) : filter_zip l [] = [].
Proof. destruct l; reflexivity. Qed.

Lemma tuple_repeat_length {A : Type} (x : A) (n : Z) :
  length (tuple_repeat x n) = Z.to_nat n.
Proof. apply length_replicate. Qed.

(** The lengths the rewrite produces, branch by branch. *)
Lemma partial_eval_lengths (params : pjit_params) (in_unknowns : list bool)
    (jaxpr : Jaxpr) (new_params : pjit_final_params) :
  call_jaxpr params = Some jaxpr ->
  length (donated_invars params) = length in_unknowns ->
  length (in_axis_resources params) = length in_unknowns ->
  _pjit_partial_eval_update_params params in_unknowns = Ok new_params ->
  length (final_donated_invars new_params)
  = length (final_in_axis_resources new_params) /\
  length (final_donated_invars new_params)
  = (if negb (nonempty in_unknowns) && nonempty (donated_invars params)
     then length (invars jaxpr)
     else length (invars jaxpr) - length (donated_invars params)
          + count_true in_unknowns).
Proof.
  intros Hj Hd Ha. unfold _pjit_partial_eval_update_params.
  rewrite Hj. simpl.
  destruct (negb (nonempty in_unknowns) && nonempty (donated_invars params));
    unfold mbind, result_bind;
    destruct (hf_call (out_axis_resources_thunk params)); try discriminate;
    intros [= <-]; simpl;
    rewrite ?length_app, ?tuple_repeat_length, ?filter_zip_length by assumption;
    lia.
Qed.

(** The rewrite asks the thunk for the placements of the outputs. *)
Lemma partial_eval_out_axis_resources (params : pjit_params)
    (in_unknowns : list bool) (jaxpr : Jaxpr) :
  call_jaxpr params = Some jaxpr ->
  (forall out, hf_call (out_axis_resources_thunk params) = Ok out ->
     exists new_params,
       _pjit_partial_eval_update_params params in_unknowns = Ok new_params /\
       out_axis_resources new_params = out /\
       final_call_jaxpr new_params = Some jaxpr) /\
  (forall e, hf_call (out_axis_resources_thunk params) = Raise e ->
     _pjit_partial_eval_update_params params in_unknowns = Raise e).
Proof.
  intros Hj. unfold _pjit_partial_eval_update_params. rewrite Hj. simpl.
  split.
  - intros out Hout.
    destruct (negb (nonempty in_unknowns) && nonempty (donated_invars params));
      unfold mbind, result_bind; rewrite Hout; eexists; repeat split.
  - intros e He.
    destruct (negb (nonempty in_unknowns) && nonempty (donated_invars params));
      unfold mbind, result_bind; rewrite He; reflexivity.
Qed.

(** When the call body has [consts] constants before the inputs that are
    unknown, the rewritten lists are as long as the inputs of the body
    exactly when there is no constant or no input is known. *)
Lemma partial_eval_length_invariant (params : pjit_params)
    (in_unknowns : list bool) (jaxpr : Jaxpr)
    (new_params : pjit_final_params) (consts : nat) :
  call_jaxpr params = Some jaxpr ->
  length (donated_invars params) = length in_unknowns ->
  length (in_axis_resources params) = length in_unknowns ->
  in_unknowns <> [] ->
  length (invars jaxpr) = consts + count_true in_unknowns ->
  _pjit_partial_eval_update_params params in_unknowns = Ok new_params ->
  (length (final_donated_invars new_params) = length (invars jaxpr)
   <-> consts = 0 \/ count_true in_unknowns = length in_unknowns).
Proof.
  intros Hj Hd Ha Hne Hinv Hnew.
  destruct (partial_eval_lengths _ _ _ _ Hj Hd Ha Hnew) as [_ Hlen].
  destruct in_unknowns as [|u us]; [congruence |]. simpl in Hlen.
  assert (count_true (u :: us) <= length (u :: us)) as Hle
    by (unfold count_true; apply length_filter).
  rewrite Hlen, Hinv, Hd. lia.
Qed.

(** The replay of a call without input tracers: one entry per input of the
    body, none donated, all replicated. *)
Lemma partial_eval_no_tracers (params : pjit_params) (jaxpr : Jaxpr)
    (new_params : pjit_final_params) :
  call_jaxpr params = Some jaxpr ->
  _pjit_partial_eval_update_params params [] = Ok new_params ->
  final_donated_invars new_params = replicate (length (invars jaxpr)) false /\
  final_in_axis_resources new_params
  = replicate (length (invars jaxpr)) Parser.REPLICATED.
Proof.
  intros Hj. unfold _pjit_partial_eval_update_params. rewrite Hj. simpl.
  unfold mbind, result_bind, tuple_repeat.
  destruct (donated_invars params) as [|d ds]; simpl;
    destruct (hf_call (out_axis_resources_thunk params)); try discriminate;
    intros [= <-]; simpl;
    rewrite ?filter_zip_nil_r, ?app_nil_r, ?Z.sub_0_r, ?Nat2Z.id; auto.
Qed.

(** C4: with one constant and one of two arguments known, the rewritten
    call body has two inputs while the rewrite returns one donation flag and
    one placement; the placements of the outputs are those the thunk
    returns. *)
Theorem partial_eval_known_input_short_lists :
  exists new_params,
    _pjit_partial_eval_update_params two_argument_params [false; true]
    = Ok new_params /\
    final_call_jaxpr new_params = Some staged_jaxpr /\
    length (invars staged_jaxpr) = 2 /\
    final_donated_invars new_params = [false] /\
    final_in_axis_resources new_params = [spec_x] /\
    Some (out_axis_resources new_params)
    = match hf_call (out_axis_resources_thunk two_argument_params) with
      | Ok out => Some out
      | Raise _ => None
      end.
Proof. eexists. repeat split. Qed.

(** ** Hashable thunks *)

Fixpoint hf_eq_refl (h : HashableFunction) : hf_eq h h = true
with closure_eq_refl (cl : hf_closure) : closure_eq cl cl = true.
Proof.
  - destruct h as [f c cl]. simpl.
    rewrite bool_decide_eq_true_2 by reflexivity. apply closure_eq_refl.
  - destruct cl as [entries td|nz h|out]; simpl;
      rewrite ?bool_decide_eq_true_2 by reflexivity; simpl;
      [reflexivity | apply hf_eq_refl | reflexivity].
Qed.

Section ThunkHashFacts.

Variable hash_str : string -> Z.
Variable hash_tuple : list Z -> Z.
Variable hash_bool : bool -> Z.
Variable hash_code : code -> Z.
Variable hash_treedef : treedef -> Z.

Abbreviation hash_of :=
  (hf_hash hash_str hash_tuple hash_bool hash_code hash_treedef).
Abbreviation closure_hash_of :=
  (closure_hash hash_str hash_tuple hash_bool hash_code hash_treedef).

(** Hashable functions that compare equal have equal hashes. *)
Fixpoint hf_eq_hash (a b : HashableFunction) {struct a} :
  hf_eq a b = true -> hash_of a = hash_of b
with closure_eq_hash (a b : hf_closure) {struct a} :
  closure_eq a b = true -> closure_hash_of a = closure_hash_of b.
Proof.
  - destruct a as [fa ca cla], b as [fb cb clb]. simpl. intros H.
    apply andb_prop in H as [Hc Hcl]. apply bool_decide_eq_true in Hc.
    rewrite Hc, (closure_eq_hash cla clb Hcl). reflexivity.
  - destruct a as [ea ta|nza ha|oa], b as [eb tb|nzb hb|ob]; simpl;
      try discriminate; intros H.
    + apply andb_prop in H as [He Ht].
      apply bool_decide_eq_true in He, Ht. rewrite He, Ht. reflexivity.
    + apply andb_prop in H as [Hnz Hh]. apply bool_decide_eq_true in Hnz.
      rewrite Hnz, (hf_eq_hash ha hb Hh). reflexivity.
    + apply bool_decide_eq_true in H. rewrite H. reflexivity.
Qed.

End ThunkHashFacts.

(** ** The forward-mode differentiation rewrite *)

(** An entry selected by a mask is the entry of a position the mask sets. *)
Lemma filter_zip_lookup {A : Type} (l : list A) (mask : list bool)
    (j : nat) (x : A) :
  filter_zip l mask !! j = Some x ->
  exists i, l !! i = Some x /\ mask !! i = Some true.
Proof.
  unfold filter_zip. revert mask j.
  induction l as [|y l IH]; intros [|b mask] j; simpl; try discriminate.
  rewrite filter_cons. simpl. destruct b.
  - destruct (decide (true = true)); [| congruence]. simpl.
    destruct j as [|j]; simpl.
    + intros [= <-]. exists 0. auto.
    + intros H. destruct (IH mask j H) as (i & Hi & Hm). exists (S i). auto.
  - destruct (decide (false = true)); [discriminate |].
    intros H. destruct (IH mask j H) as (i & Hi & Hm). exists (S i). auto.
Qed.

(** C5: the differentiation rewrite depends on the parameters and the mask
    of nonzero tangents only through their content. Two applications to the
    same parameters and the same mask, whatever thunk of nonzero output
    tangents each is given, return the same donation flags and the same
    input placements, and thunks of output placements that compare equal
    and have equal hashes. The lists are the original ones followed by the
    entries of the inputs whose tangent is nonzero: one per such input,
    each the entry of that input. *)
Theorem jvp_update_params_content_stable
    (hash_str : string -> Z) (hash_tuple : list Z -> Z)
    (hash_bool : bool -> Z) (hash_code : code -> Z)
    (hash_treedef : treedef -> Z)
    (params : pjit_params) (nz_tangents : list bool)
    (nz_out_1 nz_out_2 : unit -> result (list bool)) :
  let p1 := _pjit_jvp_update_params params nz_tangents nz_out_1 in
  let p2 := _pjit_jvp_update_params params nz_tangents nz_out_2 in
  donated_invars p1 = donated_invars p2 /\
  in_axis_resources p1 = in_axis_resources p2 /\
  hf_eq (out_axis_resources_thunk p1) (out_axis_resources_thunk p2) = true /\
  hf_hash hash_str hash_tuple hash_bool hash_code hash_treedef
          (out_axis_resources_thunk p1)
  = hf_hash hash_str hash_tuple hash_bool hash_code hash_treedef
            (out_axis_resources_thunk p2) /\
  donated_invars p1
  = donated_invars params ++ filter_zip (donated_invars params) nz_tangents /\
  in_axis_resources p1
  = in_axis_resources params
    ++ filter_zip (in_axis_resources params) nz_tangents /\
  (length (in_axis_resources params) = length nz_tangents ->
   length (donated_invars params) = length nz_tangents ->
   length (in_axis_resources p1)
   = length (in_axis_resources params) + count_true nz_tangents /\
   length (donated_invars p1)
   = length (donated_invars params) + count_true nz_tangents) /\
  (forall j spec,
     in_axis_resources p1 !! (length (in_axis_resources params) + j)
     = Some spec ->
     exists i, in_axis_resources params !! i = Some spec /\
               nz_tangents !! i = Some true).
Proof.
  intros p1 p2. unfold p1, p2, _pjit_jvp_update_params. simpl.
  repeat split.
  - rewrite bool_decide_eq_true_2 by reflexivity. apply hf_eq_refl.
  - rewrite length_app, filter_zip_length by assumption. reflexivity.
  - rewrite length_app, filter_zip_length by assumption. reflexivity.
  - intros j spec H. rewrite lookup_app_r in H by lia.
    replace (length (in_axis_resources params) + j
             - length (in_axis_resources params)) with j in H by lia.
    exact (filter_zip_lookup _ _ _ _ H).
Qed.

Lemma jvp_update_params_content_stable_witness :
  length (in_axis_resources
            (_pjit_jvp_update_params two_argument_params [false; true]
                                     (fun _ => Ok [true])))
  = 3 /\
  in_axis_resources
    (_pjit_jvp_update_params two_argument_params [false; true]
                             (fun _ => Ok [true]))
  = [Parser.REPLICATED; spec_x; spec_x].
Proof.
  pose proof (jvp_update_params_content_stable
                (fun _ => 0%Z) (fun _ => 0%Z) (fun _ => 0%Z) (fun _ => 0%Z)
                (fun _ => 0%Z) two_argument_params [false; true]
                (fun _ => Ok [true]) (fun _ => Ok [false]))
    as (_ & _ & _ & _ & _ & Hin & Hlen & _).
  split.
  - exact (proj1 (Hlen eq_refl eq_refl)).
  - exact Hin.
Defined.

(** The thunk the rewrite builds appends, for each output whose tangent is
    nonzero, the placement of that output. *)
Example jvp_new_out_axis_resources_thunk :
  hf_call (out_axis_resources_thunk
             (_pjit_jvp_update_params two_argument_params [false; true]
                                      (fun _ => Ok [true])))
  = Ok [Parser.REPLICATED; Parser.REPLICATED].
Proof. reflexivity. Qed.

(** ** The compilation cache *)


Section CacheFacts.

Context {value executable lowering : Type}.
Variable get_aval : value -> ShapedArray.
Variable mesh_callable :
  WrappedFun -> string -> list (axis_name * Z) ->
  list (list (axis_name * nat)) ->
  (unit -> result (list (list (axis_name * nat)))) ->
  list bool -> list ShapedArray ->
  lowering -> result executable * lowering.
Variable run : executable -> list value -> result (list value).

(** The number of programs the lowering collaborator has compiled: every
    call of [mesh_callable] adds one. *)
Variable compilations : lowering -> nat.
Hypothesis mesh_callable_compiles :
  forall fun_ name mesh in_axes out_axes donated avals low,
    compilations
      (mesh_callable fun_ name mesh in_axes out_axes donated avals low).2
    = S (compilations low).



(** A compilation that fails leaves no entry behind. *)
Lemma pjit_callable_failure (fun_ : WrappedFun) (a : callable_args)
    (st : cache_state) (e : exn) (low : lowering) :
  cache_get (fun_, a) (entries st) = None ->
  _pjit_callable_body mesh_callable fun_ a (lowering_state st)
  = (Raise e, low) ->
  _pjit_callable mesh_callable fun_ a st
  = (Raise e, mkCache (entries st) low).
Proof.
  intros Hmiss Hbody. unfold _pjit_callable. rewrite Hmiss, Hbody. reflexivity.
Qed.


End CacheFacts.


(** ** Resource typing against named axes *)

(** A loop either passes every element or raises what its first failing
    element raises. *)
Lemma for_each_cases {A : Type} (body : A -> result unit) (l : list A) :
  (for_each body l = Ok tt /\ Forall (fun x => body x = Ok tt) l) \/
  (exists x e, x ∈ l /\ body x = Raise e /\ for_each body l = Raise e).
Proof.
  destruct (for_each body l) as [[]|e] eqn:H.
  - left. split; [reflexivity | apply for_each_Ok, H].
  - right. apply for_each_Raise in H as (pre & x & post & -> & _ & Hx).
    exists x, e. split; [apply elem_of_app; right; left | auto].
Qed.

Lemma comprehension_getitem_named
    (named_axis_resources : gmap axis_name (list axis_name))
    (names : list axis_name) :
  Forall (fun n => is_Some (named_axis_resources !! n)) names ->
  comprehension (getitem_named named_axis_resources) names
  = Ok (map (fun n => default [] (named_axis_resources !! n)) names).
Proof.
  intros H. apply comprehension_Ok.
  induction H as [|n names [rs Hn] _ IH]; simpl; constructor; [| exact IH].
  unfold getitem_named. rewrite Hn. reflexivity.
Qed.

(** The check on one value: it passes when the two sets are disjoint and
    otherwise raises the error that names their intersection. *)
Lemma check_resources_against_named_axes_cases (what : string)
    (named_axis_resources : gmap axis_name (list axis_name))
    (v : Var) (pos_axis_resources : ParsedPartitionSpec) :
  named_axes_bound named_axis_resources (aval v) ->
  (disjoint_resources named_axis_resources v pos_axis_resources /\
   _check_resources_against_named_axes what (aval v) pos_axis_resources
                                       named_axis_resources = Ok tt) \/
  (~ disjoint_resources named_axis_resources v pos_axis_resources /\
   _check_resources_against_named_axes what (aval v) pos_axis_resources
                                       named_axis_resources
   = Raise (JAXTypeError what pos_axis_resources
              (positional_resources pos_axis_resources
               ∩ named_resources named_axis_resources (aval v)))).
Proof.
  intros Hbound. unfold _check_resources_against_named_axes.
  rewrite (comprehension_getitem_named _ _ Hbound).
  unfold mbind, result_bind, disjoint_resources, positional_resources,
    named_resources.
  destruct (decide (_ = ∅)) as [E|E]; [left | right]; auto.
Qed.

(** The loop over the inputs, or over the outputs, of the call body. *)
Lemma check_pairs_cases (what : string)
    (named_axis_resources : gmap axis_name (list axis_name))
    (pairs : list (Var * ParsedPartitionSpec)) :
  Forall (fun p => named_axes_bound named_axis_resources (aval p.1)) pairs ->
  let loop :=
    for_each (fun '(v, pos_axis_resources) =>
                _check_resources_against_named_axes
                  what (aval v) pos_axis_resources named_axis_resources)
             pairs in
  (loop = Ok tt /\
   forall v pos, (v, pos) ∈ pairs ->
                 disjoint_resources named_axis_resources v pos) \/
  (exists e, loop = Raise e /\
             reports_overlap what named_axis_resources pairs e).
Proof.
  intros Hbound loop. rewrite Forall_forall in Hbound.
  destruct (for_each_cases
              (fun '(v, pos_axis_resources) =>
                 _check_resources_against_named_axes
                   what (aval v) pos_axis_resources named_axis_resources)
              pairs) as [[Hok Hall]|([v pos] & e & Hin & Hbody & Hraise)].
  - left. split; [exact Hok |]. intros v pos Hin.
    rewrite Forall_forall in Hall. specialize (Hall (v, pos) Hin).
    simpl in Hall.
    destruct (check_resources_against_named_axes_cases what
                named_axis_resources v pos (Hbound (v, pos) Hin))
      as [[Hd _]|[_ E]]; [exact Hd | congruence].
  - right. exists e. split; [exact Hraise |]. exists v, pos.
    destruct (check_resources_against_named_axes_cases what
                named_axis_resources v pos (Hbound (v, pos) Hin))
      as [[_ E]|[Hn E]]; [congruence |].
    split; [exact Hin |]. split; [exact Hn | congruence].
Qed.

Lemma zip_covers {A B : Type} (l : list A) (k : list B) (x : A) :
  length k = length l -> x ∈ l -> exists y, (x, y) ∈ zip l k.
Proof.
  intros Hlen Hx. apply list_elem_of_lookup in Hx as [i Hi].
  destruct (lookup_lt_is_Some_2 k i) as [y Hy].
  { rewrite Hlen. eapply lookup_lt_Some. exact Hi. }
  exists y. exact (elem_of_lookup_zip_with_2 pair l k x y (x, y) i Hi Hy).
Qed.

Section ResourceTypingFacts.

Variable resource_typecheck :
  Jaxpr -> gmap axis_name (list axis_name) -> string -> result unit.

(** C9: the typing rule of a pjit call, for a call body whose named axes
    are bound. It passes exactly when every input and every output it
    examines uses disjoint mesh axes positionally and through its named
    axes, and the typing pass over the body passes. An input whose two sets
    meet makes it raise a [JAXTypeError] naming the axes an input shares; so
    does an output, once the inputs and the body have passed. An error of
    the pass over the body is raised as it is. With one placement per input
    and per output, every input and every output is examined. *)
Theorem resource_typing_pjit_spec (avals : list ShapedArray)
    (params : pjit_final_params) (source_info : string)
    (named_axis_resources : gmap axis_name (list axis_name))
    (jaxpr : Jaxpr) :
  let inputs := zip (invars jaxpr) (final_in_axis_resources params) in
  let outputs := zip (outvars jaxpr) (out_axis_resources params) in
  let body :=
    resource_typecheck jaxpr named_axis_resources (final_name params) in
  let typing :=
    _resource_typing_pjit resource_typecheck avals params source_info
                          named_axis_resources in
  let all_disjoint (pairs : list (Var * ParsedPartitionSpec)) :=
    forall v pos, (v, pos) ∈ pairs ->
                  disjoint_resources named_axis_resources v pos in
  let some_overlap (pairs : list (Var * ParsedPartitionSpec)) :=
    exists v pos, (v, pos) ∈ pairs /\
                  ~ disjoint_resources named_axis_resources v pos in
  final_call_jaxpr params = Some jaxpr ->
  Forall (fun v => named_axes_bound named_axis_resources (aval v))
         (invars jaxpr ++ outvars jaxpr) ->
  (typing = Ok tt
   <-> all_disjoint inputs /\ body = Ok tt /\ all_disjoint outputs) /\
  (some_overlap inputs ->
   exists e, typing = Raise e /\
             reports_overlap "pjit input" named_axis_resources inputs e) /\
  (all_disjoint inputs -> body = Ok tt -> some_overlap outputs ->
   exists e, typing = Raise e /\
             reports_overlap "pjit output" named_axis_resources outputs e) /\
  (all_disjoint inputs -> forall e, body = Raise e -> typing = Raise e) /\
  (length (final_in_axis_resources params) = length (invars jaxpr) ->
   forall v, v ∈ invars jaxpr -> exists pos, (v, pos) ∈ inputs) /\
  (length (out_axis_resources params) = length (outvars jaxpr) ->
   forall v, v ∈ outvars jaxpr -> exists pos, (v, pos) ∈ outputs).
Proof.
  intros inputs outputs body typing all_disjoint some_overlap Hj Hbound.
  rewrite Forall_app in Hbound. destruct Hbound as [Hbin Hbout].
  assert (Forall (fun p : Var * ParsedPartitionSpec =>
                    named_axes_bound named_axis_resources (aval p.1)) inputs)
    as Hin.
  { apply Forall_forall. intros [v pos] H. simpl.
    rewrite Forall_forall in Hbin. apply Hbin. exact (elem_of_zip_l _ _ _ _ H). }
  assert (Forall (fun p : Var * ParsedPartitionSpec =>
                    named_axes_bound named_axis_resources (aval p.1)) outputs)
    as Hout.
  { apply Forall_forall. intros [v pos] H. simpl.
    rewrite Forall_forall in Hbout. apply Hbout.
    exact (elem_of_zip_l _ _ _ _ H). }
  pose proof (check_pairs_cases "pjit input" named_axis_resources inputs Hin)
    as Hci.
  pose proof (check_pairs_cases "pjit output" named_axis_resources outputs Hout)
    as Hco.
  simpl in Hci, Hco.
  assert (forall pairs what e,
            all_disjoint pairs ->
            reports_overlap what named_axis_resources pairs e -> False)
    as Hexcl.
  { intros pairs what e Hall (v & pos & Hmem & Hn & _).
    exact (Hn (Hall v pos Hmem)). }
  assert (forall pairs, all_disjoint pairs -> some_overlap pairs -> False)
    as Hexcl'.
  { intros pairs Hall (v & pos & Hmem & Hn). exact (Hn (Hall v pos Hmem)). }
  unfold typing, _resource_typing_pjit. rewrite Hj. simpl.
  fold inputs outputs body. unfold mbind, result_bind.
  destruct Hci as [[-> Hdi]|(ei & -> & Hri)].
  - destruct body as [[]|eb] eqn:Hb.
    + destruct Hco as [[-> Hdo]|(eo & -> & Hro)]; split_and!.
      * split; [intros _; auto | reflexivity].
      * intros H. exfalso. exact (Hexcl' inputs Hdi H).
      * intros _ _ H. exfalso. exact (Hexcl' outputs Hdo H).
      * intros _ e [=].
      * intros Hlen v Hv. apply zip_covers; assumption.
      * intros Hlen v Hv. apply zip_covers; assumption.
      * split; [intros [=] |].
        intros (_ & _ & H). exfalso. exact (Hexcl _ _ _ H Hro).
      * intros H. exfalso. exact (Hexcl' inputs Hdi H).
      * intros _ _ _. exists eo. auto.
      * intros _ e [=].
      * intros Hlen v Hv. apply zip_covers; assumption.
      * intros Hlen v Hv. apply zip_covers; assumption.
    + split_and!.
      * split; [intros [=] | intros (_ & [=] & _)].
      * intros H. exfalso. exact (Hexcl' inputs Hdi H).
      * intros _ [=].
      * intros _ e [= <-]. reflexivity.
      * intros Hlen v Hv. apply zip_covers; assumption.
      * intros Hlen v Hv. apply zip_covers; assumption.
  - split_and!.
    + split; [intros [=] |].
      intros (H & _). exfalso. exact (Hexcl _ _ _ H Hri).
    + intros _. exists ei. auto.
    + intros H. exfalso. exact (Hexcl _ _ _ H Hri).
    + intros H. exfalso. exact (Hexcl _ _ _ H Hri).
    + intros Hlen v Hv. apply zip_covers; assumption.
    + intros Hlen v Hv. apply zip_covers; assumption.
Qed.

End ResourceTypingFacts.

Lemma named_jaxpr_bound :
  Forall (fun v => named_axes_bound b_on_x (aval v))
         (invars named_jaxpr ++ outvars named_jaxpr).
Proof.
  repeat apply Forall_cons_2; try apply Forall_nil_2.
  exists ["x"%string]. reflexivity.
Qed.

Lemma named_input_overlaps : ~ disjoint_resources b_on_x named_input spec_x.
Proof.
  unfold disjoint_resources. intros H.
  assert ("x"%string ∈ positional_resources spec_x
                       ∩ named_resources b_on_x (aval named_input)) as Hx.
  { apply elem_of_intersection. split.
    - unfold positional_resources. simpl. set_solver.
    - unfold named_resources. simpl.
      replace (b_on_x !! "b"%string) with (Some ["x"%string]) by reflexivity.
      simpl. set_solver. }
  rewrite H in Hx. set_solver.
Qed.

Lemma resource_typing_pjit_spec_witness :
  exists e,
    _resource_typing_pjit accepting_typecheck [] named_params
                          "pjit.py"%string b_on_x = Raise e /\
    reports_overlap "pjit input" b_on_x
      (zip (invars named_jaxpr) (final_in_axis_resources named_params)) e.
Proof.
  destruct (resource_typing_pjit_spec accepting_typecheck [] named_params
              "pjit.py"%string b_on_x named_jaxpr eq_refl named_jaxpr_bound)
    as (_ & Hinput & _).
  apply Hinput. exists named_input, spec_x. split.
  - apply list_elem_of_In. simpl. auto.
  - exact named_input_overlaps.
Defined.

(** * Further properties of the code *)

(** ** The uniqueness checker, in full *)

Lemma occurrences_cons (r x : axis_name) (l : list axis_name) :
  occurrences r (x :: l)
  = (if decide (x = r) then 1 else 0) + occurrences r l.
Proof.
  unfold occurrences. rewrite filter_cons.
  destruct (decide (x = r)); reflexivity.
Qed.

Lemma NoDup_occurrences (l : list axis_name) :
  NoDup l <-> forall r, occurrences r l <= 1.
Proof.
  induction l as [|x l IH].
  - split; [intros _ r; unfold occurrences; simpl; lia | intros _; constructor].
  - rewrite NoDup_cons, IH. split.
    + intros [Hx Hl] r. rewrite occurrences_cons.
      destruct (decide (x = r)) as [->|_]; [| apply Hl].
      destruct (occurrences r l) eqn:E; [lia |].
      exfalso. apply Hx. apply occurrences_elem_of. lia.
    + intros H. split.
      * intros Hx. apply occurrences_elem_of in Hx.
        specialize (H x). rewrite occurrences_cons in H.
        destruct (decide (x = x)); [lia | congruence].
      * intros r. specialize (H r). rewrite occurrences_cons in H. lia.
Qed.

Lemma not_NoDup_occurrences (l : list axis_name) :
  ~ NoDup l -> exists r, 1 < occurrences r l.
Proof.
  induction l as [|x l IH]; intros H.
  - exfalso. apply H. constructor.
  - destruct (decide (x ∈ l)) as [Hx|Hx].
    + exists x. rewrite occurrences_cons.
      apply occurrences_elem_of in Hx.
      destruct (decide (x = x)); [lia | congruence].
    + destruct IH as [r Hr].
      * intros Hl. apply H. apply NoDup_cons. auto.
      * exists r. rewrite occurrences_cons. lia.
Qed.

(** What the checker does with one placement, case by case. *)
Lemma check_unique_one_cases (arg_name : string) (spec : ParsedPartitionSpec) :
  (partitions spec = [] /\ check_unique_one arg_name spec = Ok tt) \/
  (partitions spec <> [] /\ concat (partitions spec) = [] /\
   check_unique_one arg_name spec = Raise IndexError) \/
  (concat (partitions spec) <> [] /\ NoDup (concat (partitions spec)) /\
   check_unique_one arg_name spec = Ok tt) \/
  (~ NoDup (concat (partitions spec)) /\
   exists multiple_uses,
     check_unique_one arg_name spec
     = Raise (ValueError (DuplicateEntries arg_name spec multiple_uses))).
Proof.
  destruct (partitions spec) as [|d ds] eqn:Hp.
  - left. split; [reflexivity |]. apply check_unique_one_empty, Hp.
  - right. destruct (concat (d :: ds)) as [|x l] eqn:Hc.
    + left. split; [discriminate |]. split; [reflexivity |].
      unfold check_unique_one, Parser.truthy, Parser.len.
      rewrite Hp, Hc. reflexivity.
    + right. destruct (decide (NoDup (x :: l))) as [Hnd|Hnd].
      * left. split; [discriminate |]. split; [exact Hnd |].
        unfold check_unique_one, Parser.truthy, Parser.len.
        rewrite Hp. simpl negb. cbv iota. rewrite Hc.
        pose proof (counter_of_list_wf (x :: l)) as Hwf.
        assert ((x, occurrences x (x :: l)) ∈ Counter.of_list (x :: l))
          as Hin.
        { apply (counter_elem_of _ _ _ Hwf). rewrite counter_of_list_get.
          split; [reflexivity |]. rewrite occurrences_cons.
          destruct (decide (x = x)); [lia | congruence]. }
        destruct (most_common_1_spec _ _ _ Hin)
          as (k & top & rest & -> & _ & Hk).
        apply (counter_elem_of _ _ _ Hwf) in Hk as [Hk _].
        rewrite counter_of_list_get in Hk.
        pose proof (proj1 (NoDup_occurrences (x :: l)) Hnd k) as Hle.
        destruct (Nat.ltb_spec 1 top); [lia | reflexivity].
      * right. split; [exact Hnd |].
        destruct (not_NoDup_occurrences _ Hnd) as [r Hr].
        destruct (check_unique_one_duplicates arg_name spec r)
          as (mu & Hmu & _).
        { rewrite Hp, Hc. exact Hr. }
        exists mu. exact Hmu.
Qed.

Lemma check_unique_one_Ok (arg_name : string) (spec : ParsedPartitionSpec) :
  check_unique_one arg_name spec = Ok tt <-> unique_resources spec.
Proof.
  unfold unique_resources.
  destruct (check_unique_one_cases arg_name spec)
    as [[Hp E]|[(Hp & Hc & E)|[(Hc & Hnd & E)|(Hnd & mu & E)]]];
    rewrite E; split; auto; try discriminate.
  - intros [H|[H _]]; congruence.
  - intros [H|[_ H]]; [| contradiction].
    exfalso. apply Hnd. rewrite H. constructor.
Qed.

(** X1: the uniqueness checker accepts a sequence of placements exactly
    when each of them has no dimension, or names at least one axis and names
    no axis twice, whether in two dimensions or in one. *)
Theorem check_unique_resources_accepts
    (axis_resources : list ParsedPartitionSpec) (arg_name : string) :
  _check_unique_resources axis_resources arg_name = Ok tt
  <-> Forall unique_resources axis_resources.
Proof.
  unfold _check_unique_resources. rewrite for_each_Ok.
  apply Forall_iff. intros spec. apply check_unique_one_Ok.
Qed.

(** X2: the checker raises [IndexError] exactly when the first placement
    it does not accept has dimensions none of which names an axis, as
    [PartitionSpec(None)] has. *)
Theorem check_unique_resources_index_error
    (axis_resources : list ParsedPartitionSpec) (arg_name : string) :
  _check_unique_resources axis_resources arg_name = Raise IndexError
  <-> exists pre spec post,
        axis_resources = pre ++ spec :: post /\
        Forall unique_resources pre /\
        partitions spec <> [] /\ concat (partitions spec) = [].
Proof.
  unfold _check_unique_resources. split.
  - intros H. apply for_each_Raise in H as (pre & spec & post & -> & Hpre & Hs).
    exists pre, spec, post. split; [reflexivity |]. split.
    + eapply Forall_impl; [exact Hpre |]. intros y Hy.
      apply (check_unique_one_Ok arg_name), Hy.
    + destruct (check_unique_one_cases arg_name spec)
        as [[_ E]|[(Hp & Hc & _)|[(_ & _ & E)|(_ & mu & E)]]];
        try congruence. auto.
  - intros (pre & spec & post & -> & Hpre & Hp & Hc).
    rewrite for_each_app_Ok.
    + simpl. destruct (check_unique_one_cases arg_name spec)
        as [[E _]|[(_ & _ & E)|[(E & _)|(E & _)]]]; try congruence.
      * rewrite E. reflexivity.
      * exfalso. apply E. rewrite Hc. constructor.
    + apply for_each_Ok. eapply Forall_impl; [exact Hpre |].
      intros y Hy. apply check_unique_one_Ok, Hy.
Qed.

Lemma occurrences_concat_le (r : axis_name) (ls : list (list axis_name))
    (d : list axis_name) :
  d ∈ ls -> occurrences r d <= occurrences r (concat ls).
Proof.
  intros Hd. apply list_elem_of_lookup in Hd as [i Hi].
  rewrite (occurrences_concat_lookup r ls i d Hi). lia.
Qed.

(** X3: an axis written twice within one dimension is refused like an axis
    written in two dimensions, and the error names it. *)
Theorem check_unique_resources_same_dimension (arg_name : string)
    (pre post : list ParsedPartitionSpec) (spec : ParsedPartitionSpec)
    (d : list axis_name) (r : axis_name) :
  _check_unique_resources pre arg_name = Ok tt ->
  d ∈ partitions spec ->
  1 < occurrences r d ->
  exists multiple_uses,
    _check_unique_resources (pre ++ spec :: post) arg_name
    = Raise (ValueError (DuplicateEntries arg_name spec multiple_uses)) /\
    r ∈ multiple_uses.
Proof.
  intros Hpre Hd Hr.
  destruct (check_unique_one_duplicates arg_name spec r)
    as (mu & Hraise & _ & Hmu).
  { pose proof (occurrences_concat_le r _ _ Hd). lia. }
  exists mu. split.
  - unfold _check_unique_resources in *.
    rewrite (for_each_app_Ok _ _ _ Hpre). simpl. rewrite Hraise. reflexivity.
  - apply Hmu. pose proof (occurrences_concat_le r _ _ Hd). lia.
Qed.

Lemma check_unique_resources_same_dimension_witness :
  exists multiple_uses,
    _check_unique_resources ([] ++ [spec_xx]) "in_axis_resources"%string
    = Raise (ValueError (DuplicateEntries "in_axis_resources"%string spec_xx
                                          multiple_uses)) /\
    "x"%string ∈ multiple_uses.
Proof.
  apply (check_unique_resources_same_dimension "in_axis_resources"%string
           [] [] spec_xx ["x"; "x"]%string "x"%string).
  - reflexivity.
  - apply list_elem_of_In. simpl. auto.
  - vm_compute. lia.
Defined.

(** ** The parser, in full *)

(** X4: two declarations that parse give equal placements exactly when the
    declarations are equal. Declarations written differently that denote the
    same dimensions, as a list and a tuple of the same axes do, parse to
    placements with the same dimensions and the same hash that are not
    equal. *)
Theorem parsed_equal_iff_declared_equal
    (hash_str : string -> Z) (hash_tuple : list Z -> Z)
    (entry1 entry2 : user_input) (name1 name2 : string)
    (a b : ParsedPartitionSpec) :
  Parser.from_user_input entry1 name1 = Ok a ->
  Parser.from_user_input entry2 name2 = Ok b ->
  (Parser.eq a b = true <-> entry1 = entry2) /\
  (partitions a = partitions b ->
     ParsedPartitionSpec_hash hash_str hash_tuple a
     = ParsedPartitionSpec_hash hash_str hash_tuple b) /\
  (forall axes,
     entry1 = UPartitionSpec [AxTuple axes] ->
     entry2 = UPartitionSpec [AxList axes] ->
     partitions a = partitions b /\ Parser.eq a b = false).
Proof.
  intros Ha Hb. split; [| split].
  - rewrite parser_eq_spec.
    destruct entry1 as [|es1|r1], entry2 as [|es2|r2]; simpl in Ha, Hb;
      try discriminate; injection Ha as <-; injection Hb as <-;
      split; congruence.
  - intros Hp. unfold ParsedPartitionSpec_hash. rewrite Hp. reflexivity.
  - intros axes -> ->. simpl in Ha, Hb. injection Ha as <-. injection Hb as <-.
    split; [reflexivity |]. apply not_true_is_false.
    rewrite parser_eq_spec. discriminate.
Qed.

Lemma parsed_equal_iff_declared_equal_witness :
  Parser.eq spec_x (mkParsed (UPartitionSpec [AxTuple ["x"%string]])
                             [["x"%string]]) = true
  <-> UPartitionSpec [AxName "x"%string]
      = UPartitionSpec [AxTuple ["x"%string]].
Proof.
  exact (proj1 (parsed_equal_iff_declared_equal
                  (fun _ => 0%Z) (fun _ => 0%Z)
                  (UPartitionSpec [AxName "x"%string])
                  (UPartitionSpec [AxTuple ["x"%string]])
                  "in_axis_resources"%string "in_axis_resources"%string
                  _ _ eq_refl eq_refl)).
Defined.

(** A comprehension raises what its first failing element raises. *)
Lemma comprehension_Raise_first {A B : Type} (f : A -> result B)
    (pre post : list A) (x : A) (e : exn) :
  Forall (fun y => exists v, f y = Ok v) pre -> f x = Raise e ->
  comprehension f (pre ++ x :: post) = Raise e.
Proof.
  intros Hpre Hx. induction Hpre as [|y pre [v Hy] _ IH]; simpl.
  - rewrite Hx. reflexivity.
  - rewrite Hy. unfold mbind, result_bind in *. rewrite IH. reflexivity.
Qed.

Lemma comprehension_length {A B : Type} (f : A -> result B) (l : list A) ys :
  comprehension f l = Ok ys -> length ys = length l.
Proof.
  intros H. apply comprehension_Ok in H. symmetry.
  eapply Forall2_length. exact H.
Qed.

(** X5: a leaf that is neither [None] nor a [PartitionSpec] makes
    [_prepare_axis_resources] raise [TypeError] for the first such leaf,
    whatever the other leaves are: all leaves are parsed before any is
    checked for duplicates. *)
Theorem prepare_axis_resources_type_error (tree : pytree user_input)
    (arg_name : string) (pre post : list user_input) (repr : string) :
  tree_leaves tree = pre ++ UOther repr :: post ->
  Forall (fun e => forall r, e <> UOther r) pre ->
  _prepare_axis_resources (Some tree) arg_name
  = Raise (TypeError (String.append arg_name " leaf specifications")
                     (UOther repr)).
Proof.
  intros Hleaves Hpre. unfold _prepare_axis_resources, tree_flatten.
  rewrite Hleaves.
  rewrite (comprehension_Raise_first _ pre post (UOther repr)
             (TypeError (String.append arg_name " leaf specifications")
                        (UOther repr))).
  - reflexivity.
  - eapply Forall_impl; [exact Hpre |]. intros [|es|r] Hy; simpl; eauto.
    exfalso. exact (Hy r eq_refl).
  - reflexivity.
Qed.

Lemma prepare_axis_resources_type_error_witness :
  _prepare_axis_resources
    (Some (PTuple [PLeaf (UPartitionSpec [AxTuple ["x"; "x"]%string]);
                   PLeaf (UOther "3"%string)]))
    "in_axis_resources"%string
  = Raise (TypeError "in_axis_resources leaf specifications"%string
                     (UOther "3"%string)).
Proof.
  apply (prepare_axis_resources_type_error
           (PTuple [PLeaf (UPartitionSpec [AxTuple ["x"; "x"]%string]);
                    PLeaf (UOther "3"%string)])
           "in_axis_resources"%string
           [UPartitionSpec [AxTuple ["x"; "x"]%string]] [] "3"%string).
  - reflexivity.
  - repeat constructor. discriminate.
Defined.

(** X6: when [_prepare_axis_resources] returns, the entries are the parsed
    leaves in their order, each of them passes the uniqueness checker, the
    structure returned is the structure of the declaration, and the parsed
    tree has that structure and those entries as leaves. It returns whenever
    every leaf parses and the parsed leaves pass the checker. *)
Theorem prepare_axis_resources_result (tree : pytree user_input)
    (arg_name : string) :
  (forall parsed entries td,
     _prepare_axis_resources (Some tree) arg_name = Ok (parsed, entries, td) ->
     length entries = length (tree_leaves tree) /\
     (forall i leaf, tree_leaves tree !! i = Some leaf ->
        exists entry, entries !! i = Some entry /\
                      user_spec entry = leaf /\
                      Parser.from_user_input leaf
                        (String.append arg_name " leaf specifications")
                      = Ok entry) /\
     Forall unique_resources entries /\
     td = tree_structure tree /\
     tree_structure parsed = td /\
     tree_leaves parsed = entries) /\
  (forall entries,
     comprehension (fun entry => Parser.from_user_input entry
                       (String.append arg_name " leaf specifications"))
                   (tree_leaves tree) = Ok entries ->
     Forall unique_resources entries ->
     exists parsed,
       _prepare_axis_resources (Some tree) arg_name
       = Ok (parsed, entries, tree_structure tree)).
Proof.
  split.
  - intros parsed entries td H.
    unfold _prepare_axis_resources, tree_flatten in H.
    unfold mbind, result_bind in H.
    destruct (comprehension _ (tree_leaves tree)) as [es|e] eqn:Hes;
      [| discriminate].
    destruct (_check_unique_resources es arg_name) as [[]|e] eqn:Hu;
      [| discriminate].
    pose proof (comprehension_length _ _ _ Hes) as Hlen.
    destruct (tree_unflatten_structure tree es Hlen) as (t' & Ht' & Hl').
    pose proof (unflatten_from_structure tree es [] Hlen)
      as (t'' & Hu'' & _ & Hs'').
    rewrite app_nil_r in Hu''.
    assert (t'' = t') as ->.
    { unfold tree_unflatten in Ht'. rewrite Hu'' in Ht'. congruence. }
    rewrite Ht' in H. injection H as <- <- <-.
    split; [exact Hlen |]. split; [| split; [| auto]].
    + intros i leaf Hi. apply comprehension_Ok in Hes.
      destruct (Forall2_lookup_l _ _ _ _ _ Hes Hi) as (entry & He & Hf).
      exists entry. split; [exact He |]. split; [| exact Hf].
      destruct leaf; simpl in Hf; try discriminate; injection Hf as <-;
        reflexivity.
    + unfold _check_unique_resources in Hu. rewrite for_each_Ok in Hu.
      eapply Forall_impl; [exact Hu |]. intros y Hy.
      apply (check_unique_one_Ok arg_name), Hy.
  - intros entries Hes Hu.
    pose proof (comprehension_length _ _ _ Hes) as Hlen.
    destruct (tree_unflatten_structure tree entries Hlen) as (t' & Ht' & _).
    exists t'. unfold _prepare_axis_resources, tree_flatten.
    rewrite Hes. unfold mbind, result_bind.
    assert (_check_unique_resources entries arg_name = Ok tt) as ->.
    { unfold _check_unique_resources. apply for_each_Ok.
      eapply Forall_impl; [exact Hu |]. intros y Hy.
      apply check_unique_one_Ok, Hy. }
    rewrite Ht'. reflexivity.
Qed.

(** ** The shape/resource validator, in full *)

Lemma for_each_ext {A : Type} (f g : A -> result unit) (l : list A) :
  (forall x, x ∈ l -> f x = g x) -> for_each f l = for_each g l.
Proof.
  induction l as [|x l IH]; intros H; simpl; [reflexivity |].
  rewrite (H x) by left. rewrite IH; [reflexivity |].
  intros y Hy. apply H. right. exact Hy.
Qed.

Lemma comprehension_ext {A B : Type} (f g : A -> result B) (l : list A) :
  (forall x, x ∈ l -> f x = g x) -> comprehension f l = comprehension g l.
Proof.
  induction l as [|x l IH]; intros H; simpl; [reflexivity |].
  rewrite (H x) by left. rewrite IH; [reflexivity |].
  intros y Hy. apply H. right. exact Hy.
Qed.

Lemma check_shape_ext (what : string) (sizes sizes' : gmap axis_name Z)
    (shape : list Z) (spec : ParsedPartitionSpec) :
  (forall axes r, axes ∈ partitions spec -> r ∈ axes ->
                  sizes !! r = sizes' !! r) ->
  check_shape what sizes shape spec = check_shape what sizes' shape spec.
Proof.
  intros H. unfold check_shape.
  destruct (Nat.ltb (length shape) (Parser.len spec)); [reflexivity |].
  apply for_each_ext. intros [i axes] Hin.
  apply elem_of_enumerate in Hin. unfold check_dimension.
  rewrite (comprehension_ext (getitem_size sizes) (getitem_size sizes') axes);
    [reflexivity |].
  intros r Hr. unfold getitem_size.
  rewrite (H axes r (list_elem_of_lookup_2 _ _ _ Hin) Hr). reflexivity.
Qed.

(** X7: the validator reads [local_shape] at the axes the placements name
    and nowhere else: two environments that agree on those axes give the
    same result, errors included, whatever their physical meshes and their
    other axes are. *)
Theorem check_shapes_reads_named_axes_only {value : Type}
    (get_aval : value -> ShapedArray) (what : string)
    (env env' : ResourceEnv) (flat_vals : list value)
    (flat_axis_resources : list ParsedPartitionSpec) :
  (forall spec axes r,
     spec ∈ flat_axis_resources -> axes ∈ partitions spec -> r ∈ axes ->
     local_shape env !! r = local_shape env' !! r) ->
  _check_shapes_against_resources get_aval what env flat_vals
                                  flat_axis_resources
  = _check_shapes_against_resources get_aval what env' flat_vals
                                    flat_axis_resources.
Proof.
  intros H. unfold _check_shapes_against_resources.
  apply for_each_ext. intros [v spec] Hin.
  apply check_shape_ext. intros axes r Haxes Hr.
  exact (H spec axes r (elem_of_zip_r _ _ _ _ Hin) Haxes Hr).
Qed.

Lemma check_shapes_reads_named_axes_only_witness :
  _check_shapes_against_resources aval_of_shape "pjit arguments"%string
    mesh_x2 [[8%Z]; [7%Z]] [spec_x; spec_x]
  = _check_shapes_against_resources aval_of_shape "pjit arguments"%string
      mesh_x2_y4 [[8%Z]; [7%Z]] [spec_x; spec_x].
Proof.
  apply (check_shapes_reads_named_axes_only aval_of_shape
           "pjit arguments"%string mesh_x2 mesh_x2_y4).
  intros spec axes r Hspec Haxes Hr.
  assert (spec = spec_x) as ->.
  { apply list_elem_of_In in Hspec. simpl in Hspec.
    destruct Hspec as [H|[H|[]]]; symmetry; exact H. }
  apply list_elem_of_singleton in Haxes as ->.
  apply list_elem_of_singleton in Hr as ->.
  reflexivity.
Defined.

Lemma check_shape_app (what : string) (sizes : gmap axis_name Z)
    (shape extra : list Z) (spec : ParsedPartitionSpec) :
  Parser.len spec <= length shape ->
  check_shape what sizes (shape ++ extra) spec
  = check_shape what sizes shape spec.
Proof.
  intros Hrank. unfold check_shape. rewrite length_app.
  destruct (Nat.ltb_spec (length shape + length extra) (Parser.len spec));
    [lia |].
  destruct (Nat.ltb_spec (length shape) (Parser.len spec)); [lia |].
  apply for_each_ext. intros [i axes] Hin.
  apply elem_of_enumerate in Hin. apply lookup_lt_Some in Hin.
  unfold check_dimension, Parser.len in *.
  rewrite lookup_app_l by lia. reflexivity.
Qed.

(** X8: the validator looks at the leading dimensions only, one per
    dimension of the placement: values whose shapes differ beyond the
    dimensions their placements declare get the same result. *)
Theorem check_shapes_ignores_trailing_dimensions {value : Type}
    (get_aval : value -> ShapedArray) (what : string) (env : ResourceEnv)
    (flat_vals flat_vals' : list value)
    (flat_axis_resources : list ParsedPartitionSpec) :
  Forall2 (fun v v' => exists extra,
             shape (get_aval v') = shape (get_aval v) ++ extra)
          flat_vals flat_vals' ->
  (forall v spec, (v, spec) ∈ zip flat_vals flat_axis_resources ->
                  Parser.len spec <= length (shape (get_aval v))) ->
  _check_shapes_against_resources get_aval what env flat_vals'
                                  flat_axis_resources
  = _check_shapes_against_resources get_aval what env flat_vals
                                    flat_axis_resources.
Proof.
  unfold _check_shapes_against_resources. intros Hvals.
  revert flat_axis_resources.
  induction Hvals as [|v v' vals vals' [extra Hv] _ IH];
    intros specs Hrank; [reflexivity |].
  destruct specs as [|spec specs]; [reflexivity |]. simpl.
  rewrite Hv, check_shape_app by (apply Hrank; left).
  rewrite IH; [reflexivity |].
  intros w spec' Hin. apply Hrank. right. exact Hin.
Qed.

Lemma check_shapes_ignores_trailing_dimensions_witness :
  _check_shapes_against_resources aval_of_shape "pjit arguments"%string
    mesh_x2 [[8%Z; 3%Z]] [spec_x]
  = _check_shapes_against_resources aval_of_shape "pjit arguments"%string
      mesh_x2 [[8%Z]] [spec_x].
Proof.
  apply (check_shapes_ignores_trailing_dimensions aval_of_shape
           "pjit arguments"%string mesh_x2 [[8%Z]] [[8%Z; 3%Z]] [spec_x]).
  - repeat constructor. exists [3%Z]. reflexivity.
  - intros v spec Hin. apply list_elem_of_In in Hin. simpl in Hin.
    destruct Hin as [[= <- <-]|[]]. vm_compute. lia.
Defined.

(** X9: a placement that names no axis, as [PartitionSpec(None, None)],
    constrains the rank only: it passes for every value with enough
    dimensions, in every environment, a mesh or not. *)
Theorem check_shapes_no_axis {value : Type}
    (get_aval : value -> ShapedArray) (what : string) (env : ResourceEnv)
    (flat_vals : list value)
    (flat_axis_resources : list ParsedPartitionSpec) :
  (forall v spec, (v, spec) ∈ zip flat_vals flat_axis_resources ->
     concat (partitions spec) = [] /\
     Parser.len spec <= length (shape (get_aval v))) ->
  _check_shapes_against_resources get_aval what env flat_vals
                                  flat_axis_resources = Ok tt.
Proof.
  intros H. unfold _check_shapes_against_resources.
  apply for_each_Ok, Forall_forall. intros [v spec] Hin.
  destruct (H v spec Hin) as [Hnone Hrank]. unfold check_shape.
  destruct (Nat.ltb_spec (length (shape (get_aval v))) (Parser.len spec));
    [lia |].
  apply for_each_Ok, Forall_forall. intros [i axes] Hi.
  apply elem_of_enumerate in Hi.
  assert (axes = []) as ->.
  { destruct axes as [|a axes]; [reflexivity |]. exfalso.
    assert (a ∈ concat (partitions spec)) as Ha.
    { apply list_elem_of_In, in_concat. exists (a :: axes). split.
      - apply list_elem_of_In. eapply list_elem_of_lookup_2. exact Hi.
      - left. reflexivity. }
    rewrite Hnone in Ha. inversion Ha. }
  unfold check_dimension. simpl.
  destruct (lookup_lt_is_Some_2 (shape (get_aval v)) i) as [dim ->].
  { apply lookup_lt_Some in Hi. unfold Parser.len in Hrank. lia. }
  rewrite Z.mod_1_r. reflexivity.
Qed.

Lemma check_shapes_no_axis_witness :
  _check_shapes_against_resources aval_of_shape "pjit arguments"%string
    mesh_x0 [[7%Z; 5%Z]]
    [mkParsed (UPartitionSpec [AxNone; AxNone]) [[]; []]] = Ok tt.
Proof.
  apply (check_shapes_no_axis aval_of_shape "pjit arguments"%string mesh_x0).
  intros v spec Hin. apply list_elem_of_In in Hin. simpl in Hin.
  destruct Hin as [[= <- <-]|[]]. split; [reflexivity | vm_compute; lia].
Defined.

Lemma np_prod_int64_zero (l : list Z) : 0%Z ∈ l -> np_prod_int64 l = 0%Z.
Proof.
  unfold np_prod_int64.
  assert (forall l, foldl (fun acc x => int64_wrap (acc * x)) 0%Z l = 0%Z)
    as Hzero.
  { clear. induction l as [|x l IH]; simpl; [reflexivity | exact IH]. }
  generalize 1%Z. induction l as [|x l IH]; intros acc H.
  - inversion H.
  - simpl. apply elem_of_cons in H as [<-|H].
    + rewrite Z.mul_0_r. apply Hzero.
    + apply IH, H.
Qed.

(** A dimension that names an axis without a device never passes. *)
Lemma check_dimension_zero_size (what : string) (sizes : gmap axis_name Z)
    (spec : ParsedPartitionSpec) (shape : list Z) (i : nat)
    (axes : list axis_name) (r : axis_name) :
  r ∈ axes -> sizes !! r = Some 0%Z ->
  check_dimension what sizes spec shape i axes <> Ok tt /\
  (Forall (fun a => is_Some (sizes !! a)) axes -> is_Some (shape !! i) ->
   check_dimension what sizes spec shape i axes = Raise ZeroDivisionError).
Proof.
  intros Hr Hzero. unfold check_dimension.
  destruct (comprehension_getitem_size sizes axes)
    as [[Hall ->]|(a & Ha & Hnone & ->)].
  - rewrite np_prod_int64_zero.
    + split; [destruct (shape !! i); discriminate |].
      intros _ [dim ->]. reflexivity.
    + apply list_elem_of_fmap. exists r. rewrite Hzero. auto.
  - split; [discriminate |]. intros Hall _. exfalso.
    rewrite Forall_forall in Hall. destruct (Hall a Ha) as [x E].
    assert (Some x = None) as [=]. rewrite <- E. exact Hnone.
Qed.

(** X10: a placement that names an axis whose size is zero is never
    accepted. When that axis is in the first dimension, the axes of that
    dimension are keys of [local_shape] and the rank suffices, what is
    raised is the [ZeroDivisionError] of the remainder, not a
    [ValueError]. *)
Theorem check_shapes_zero_size_axis {value : Type}
    (get_aval : value -> ShapedArray) (what : string) (env : ResourceEnv)
    (axes : list axis_name) (r : axis_name) :
  r ∈ axes -> local_shape env !! r = Some 0%Z ->
  (forall flat_vals flat_axis_resources v spec,
     (v, spec) ∈ zip flat_vals flat_axis_resources ->
     axes ∈ partitions spec ->
     _check_shapes_against_resources get_aval what env flat_vals
                                     flat_axis_resources <> Ok tt) /\
  (forall v spec rest vals specs,
     partitions spec = axes :: rest ->
     Forall (fun a => is_Some (local_shape env !! a)) axes ->
     Parser.len spec <= length (shape (get_aval v)) ->
     _check_shapes_against_resources get_aval what env (v :: vals)
                                     (spec :: specs)
     = Raise ZeroDivisionError).
Proof.
  intros Hr Hzero. split.
  - intros vals specs v spec Hin Haxes H.
    unfold _check_shapes_against_resources in H.
    rewrite for_each_Ok, Forall_forall in H. specialize (H (v, spec) Hin).
    simpl in H. unfold check_shape in H.
    destruct (Nat.ltb (length (shape (get_aval v))) (Parser.len spec));
      [discriminate |].
    rewrite for_each_Ok, Forall_forall in H.
    apply list_elem_of_lookup in Haxes as [i Hi].
    specialize (H (i, axes) (proj2 (elem_of_enumerate _ _ _) Hi)).
    simpl in H.
    exact (proj1 (check_dimension_zero_size what _ spec _ i axes r Hr Hzero)
                 H).
  - intros v spec rest vals specs Hp Hall Hrank.
    unfold _check_shapes_against_resources. simpl. unfold check_shape.
    destruct (Nat.ltb_spec (length (shape (get_aval v))) (Parser.len spec));
      [lia |].
    rewrite Hp. unfold enumerate. simpl.
    rewrite (proj2 (check_dimension_zero_size what _ spec _ 0 axes r
                      Hr Hzero) Hall); [reflexivity |].
    apply lookup_lt_is_Some. unfold Parser.len in Hrank. rewrite Hp in Hrank.
    simpl in Hrank. lia.
Qed.

Lemma check_shapes_zero_size_axis_witness :
  _check_shapes_against_resources aval_of_shape "pjit arguments"%string
    mesh_x0 [[0%Z]] [spec_x] = Raise ZeroDivisionError.
Proof.
  apply (proj2 (check_shapes_zero_size_axis aval_of_shape
                  "pjit arguments"%string mesh_x0 ["x"%string] "x"%string
                  ltac:(apply list_elem_of_singleton; reflexivity) eq_refl)
               [0%Z] spec_x [] [] []).
  - reflexivity.
  - repeat constructor. exists 0%Z. reflexivity.
  - vm_compute. lia.
Defined.

Lemma zip_app_short_l {A B : Type} (l more : list A) (k : list B) :
  length k <= length l -> zip (l ++ more) k = zip l k.
Proof.
  revert k. induction l as [|x l IH]; intros [|y k] Hlen; simpl in *;
    try reflexivity; try lia.
  - destruct more; reflexivity.
  - f_equal. apply IH. lia.
Qed.

Lemma zip_app_short_r {A B : Type} (l : list A) (k more : list B) :
  length l <= length k -> zip l (k ++ more) = zip l k.
Proof.
  revert k. induction l as [|x l IH]; intros [|y k] Hlen; simpl in *;
    try reflexivity; try lia.
  f_equal. apply IH. lia.
Qed.

(** X11: values and placements are paired up to the shorter of the two
    sequences: values beyond the last placement are not validated, and
    placements beyond the last value are not read. *)
Theorem check_shapes_pairs_up_to_shorter {value : Type}
    (get_aval : value -> ShapedArray) (what : string) (env : ResourceEnv)
    (flat_vals more_vals : list value)
    (flat_axis_resources more_resources : list ParsedPartitionSpec) :
  (length flat_axis_resources <= length flat_vals ->
   _check_shapes_against_resources get_aval what env
     (flat_vals ++ more_vals) flat_axis_resources
   = _check_shapes_against_resources get_aval what env flat_vals
       flat_axis_resources) /\
  (length flat_vals <= length flat_axis_resources ->
   _check_shapes_against_resources get_aval what env flat_vals
     (flat_axis_resources ++ more_resources)
   = _check_shapes_against_resources get_aval what env flat_vals
       flat_axis_resources).
Proof.
  unfold _check_shapes_against_resources. split; intros Hlen.
  - rewrite zip_app_short_l by exact Hlen. reflexivity.
  - rewrite zip_app_short_r by exact Hlen. reflexivity.
Qed.

(** ** The sharding annotation emitter *)

Lemma alist_get_Some_elem {V : Type} (a : axis_name) (v : V)
    (d : list (axis_name * V)) :
  alist_get a d = Some v -> (a, v) ∈ d.
Proof.
  induction d as [|[k w] d IH]; simpl; [discriminate |].
  destruct (decide (k = a)) as [->|_].
  - intros [= ->]. left.
  - intros H. right. apply IH, H.
Qed.

Lemma alist_get_None {V : Type} (a : axis_name) (d : list (axis_name * V)) :
  alist_get a d = None <-> a ∉ map fst d.
Proof.
  induction d as [|[k w] d IH]; simpl.
  - split; [intros _ H; inversion H | reflexivity].
  - rewrite not_elem_of_cons. destruct (decide (k = a)) as [->|Hk].
    + split; [discriminate | intros [H _]; congruence].
    + rewrite IH. split; [intros H; split; [congruence | exact H] | tauto].
Qed.

Lemma alist_get_app {V : Type} (a : axis_name) (d1 d2 : list (axis_name * V)) :
  alist_get a (d1 ++ d2)
  = match alist_get a d1 with
    | Some v => Some v
    | None => alist_get a d2
    end.
Proof.
  induction d1 as [|[k w] d1 IH]; simpl; [reflexivity |].
  destruct (decide (k = a)); [reflexivity | exact IH].
Qed.

Lemma alist_get_NoDup {V : Type} (a : axis_name) (v : V)
    (d : list (axis_name * V)) :
  NoDup (map fst d) -> (a, v) ∈ d -> alist_get a d = Some v.
Proof.
  induction d as [|[k w] d IH]; simpl; intros Hnd Hin; [inversion Hin |].
  apply NoDup_cons in Hnd as [Hk Hnd].
  apply elem_of_cons in Hin as [[= <- <-]|Hin].
  - destruct (decide (a = a)); [reflexivity | congruence].
  - destruct (decide (k = a)) as [->|_]; [| apply IH; assumption].
    exfalso. apply Hk. apply list_elem_of_fmap. exists (a, v). auto.
Qed.

Lemma ordered_set_get {V : Type} (a k : axis_name) (v : V)
    (d : list (axis_name * V)) :
  alist_get a (ordered_set k v d)
  = if decide (k = a) then Some v else alist_get a d.
Proof.
  induction d as [|[k' w] d IH]; simpl.
  - destruct (decide (k = a)); reflexivity.
  - destruct (decide (k' = k)) as [->|Hk]; simpl.
    + destruct (decide (k = a)); reflexivity.
    + destruct (decide (k' = a)) as [->|Hk'].
      * destruct (decide (k = a)); [congruence | reflexivity].
      * exact IH.
Qed.

Lemma ordered_set_keys {V : Type} (a k : axis_name) (v : V)
    (d : list (axis_name * V)) :
  a ∈ map fst (ordered_set k v d) <-> a = k \/ a ∈ map fst d.
Proof.
  induction d as [|[k' w] d IH]; simpl.
  - rewrite list_elem_of_singleton. split; [auto |].
    intros [H|H]; [exact H | inversion H].
  - destruct (decide (k' = k)) as [->|Hk]; simpl.
    + rewrite !elem_of_cons. tauto.
    + rewrite !elem_of_cons, IH. tauto.
Qed.

Lemma ordered_set_NoDup {V : Type} (k : axis_name) (v : V)
    (d : list (axis_name * V)) :
  NoDup (map fst d) -> NoDup (map fst (ordered_set k v d)).
Proof.
  induction d as [|[k' w] d IH]; simpl; intros Hnd.
  - apply NoDup_singleton.
  - apply NoDup_cons in Hnd as [Hk' Hnd].
    destruct (decide (k' = k)) as [->|Hk]; simpl.
    + apply NoDup_cons. auto.
    + apply NoDup_cons. split; [| auto].
      rewrite ordered_set_keys. intros [->|H]; [congruence | auto].
Qed.

Lemma ordered_set_fresh {V : Type} (k : axis_name) (v : V)
    (d : list (axis_name * V)) :
  k ∉ map fst d -> ordered_set k v d = d ++ [(k, v)].
Proof.
  induction d as [|[k' w] d IH]; simpl; intros H; [reflexivity |].
  apply not_elem_of_cons in H as [Hk H].
  destruct (decide (k' = k)); [congruence |]. rewrite IH by exact H.
  reflexivity.
Qed.

Lemma mapping_fold_get (a : axis_name) (l acc : list (axis_name * nat)) :
  alist_get a (foldl mapping_step acc l)
  = match alist_get a (reverse l) with
    | Some v => Some v
    | None => alist_get a acc
    end.
Proof.
  revert acc. induction l as [|[k v] l IH]; intros acc; simpl; [reflexivity |].
  rewrite IH, reverse_cons, alist_get_app. unfold mapping_step. simpl.
  rewrite ordered_set_get.
  destruct (alist_get a (reverse l)); [reflexivity |].
  destruct (decide (k = a)); reflexivity.
Qed.

Lemma mapping_fold_keys (a : axis_name) (l acc : list (axis_name * nat)) :
  a ∈ map fst (foldl mapping_step acc l)
  <-> a ∈ map fst acc \/ a ∈ map fst l.
Proof.
  revert acc. induction l as [|[k v] l IH]; intros acc; simpl.
  - split; [auto | intros [H|H]; [exact H | inversion H]].
  - rewrite IH. unfold mapping_step. simpl.
    rewrite ordered_set_keys, elem_of_cons. tauto.
Qed.

Lemma mapping_fold_NoDup (l acc : list (axis_name * nat)) :
  NoDup (map fst acc) -> NoDup (map fst (foldl mapping_step acc l)).
Proof.
  revert acc. induction l as [|[k v] l IH]; intros acc H; simpl; [exact H |].
  apply IH. apply ordered_set_NoDup, H.
Qed.

Lemma mapping_fold_fresh (l acc : list (axis_name * nat)) :
  NoDup (map fst acc ++ map fst l) -> foldl mapping_step acc l = acc ++ l.
Proof.
  revert acc. induction l as [|[k v] l IH]; intros acc H; simpl.
  - rewrite app_nil_r. reflexivity.
  - simpl in H. unfold mapping_step at 2. simpl.
    rewrite ordered_set_fresh.
    + rewrite IH.
      * rewrite <- app_assoc. reflexivity.
      * rewrite map_app. simpl. rewrite <- app_assoc. exact H.
    + apply NoDup_app in H as (_ & H & _). intros Hk. apply (H k Hk). left.
Qed.

(** The emitter assigns the pairs of the generator one after the other. *)
Lemma get_array_mapping_fold (spec : ParsedPartitionSpec) :
  get_array_mapping spec
  = foldl mapping_step [] (mapping_pairs 0 (partitions spec)).
Proof.
  unfold get_array_mapping, enumerate. generalize (@nil (axis_name * nat)).
  generalize 0. induction (partitions spec) as [|axes dims IH];
    intros n acc; simpl; [reflexivity |].
  rewrite foldl_app, IH. f_equal.
  clear. revert acc. induction axes as [|a axes IH]; intros acc; simpl;
    [reflexivity | apply IH].
Qed.

Lemma mapping_pairs_keys (n : nat) (dims : list (list axis_name)) :
  map fst (mapping_pairs n dims) = concat dims.
Proof.
  revert n. induction dims as [|axes dims IH]; intros n; simpl; [reflexivity |].
  rewrite map_app, IH, map_map. simpl. rewrite map_id. reflexivity.
Qed.

Lemma elem_of_mapping_pairs (n : nat) (dims : list (list axis_name))
    (a : axis_name) (i : nat) :
  (a, i) ∈ mapping_pairs n dims
  <-> exists axes, n <= i /\ dims !! (i - n) = Some axes /\ a ∈ axes.
Proof.
  revert n. induction dims as [|axes dims IH]; intros n; simpl.
  - split; [intros H; inversion H | intros (? & _ & H & _); discriminate].
  - rewrite elem_of_app, IH, list_elem_of_fmap. split.
    + intros [(a' & [= <- <-] & Ha)|(axes' & Hn & Hi & Ha)].
      * exists axes. rewrite Nat.sub_diag. auto.
      * exists axes'. split; [lia |].
        replace (i - n) with (S (i - S n)) by lia. auto.
    + intros (axes' & Hn & Hi & Ha).
      destruct (i - n) as [|k] eqn:Hk.
      * injection Hi as <-. left. exists a. replace i with n by lia. auto.
      * right. exists axes'. split; [lia |].
        replace (i - S n) with k by lia. auto.
Qed.

Lemma alist_get_NoDup_const (a : axis_name) (n : nat) (d : list axis_name) :
  a ∈ d -> alist_get a (reverse (map (fun a => (a, n)) d)) = Some n.
Proof.
  intros Ha.
  destruct (alist_get a (reverse (map (fun a => (a, n)) d))) as [v|] eqn:E.
  - apply alist_get_Some_elem in E.
    apply elem_of_reverse, list_elem_of_fmap in E as (a' & [= _ <-] & _).
    reflexivity.
  - exfalso. apply alist_get_None in E. apply E.
    rewrite fmap_reverse. apply elem_of_reverse.
    rewrite map_map. simpl. rewrite map_id. exact Ha.
Qed.

(** Reading the pairs of the generator from the last one backwards finds,
    for an axis, the last dimension that names it. *)
Lemma mapping_pairs_last (a : axis_name) (dims : list (list axis_name)) :
  forall n i,
    alist_get a (reverse (mapping_pairs n dims)) = Some i
    <-> (exists axes, n <= i /\ dims !! (i - n) = Some axes /\ a ∈ axes) /\
        (forall j axes, dims !! j = Some axes -> a ∈ axes -> n + j <= i).
Proof.
  induction dims as [|d dims IH]; intros n i; simpl.
  - split; [discriminate | intros [(? & _ & H & _) _]; discriminate].
  - rewrite reverse_app, alist_get_app.
    destruct (alist_get a (reverse (mapping_pairs (S n) dims))) as [v|] eqn:Hv.
    + apply IH in Hv as [(axes & Hn & Hi & Ha) Hlast]. split.
      * intros [= <-]. split.
        -- exists axes. split; [lia |].
           replace (v - n) with (S (v - S n)) by lia. auto.
        -- intros [|j] axes' Hj Ha'; [lia |].
           specialize (Hlast j axes' Hj Ha'). lia.
      * intros [(axes' & Hn' & Hi' & Ha') Hlast'].
        assert (v <= i) as Hle.
        { specialize (Hlast' (S (v - S n)) axes Hi Ha). lia. }
        destruct (i - n) as [|k] eqn:Hk; [lia |].
        specialize (Hlast k axes' Hi' Ha'). f_equal. lia.
    + assert (a ∉ concat dims) as Hnot.
      { rewrite <- (mapping_pairs_keys (S n)).
        apply alist_get_None in Hv. rewrite fmap_reverse in Hv.
        intros H. apply Hv. apply elem_of_reverse. exact H. }
      assert (forall j axes, dims !! j = Some axes -> a ∉ axes) as Hnone.
      { intros j axes Hj Ha. apply Hnot. apply list_elem_of_In, in_concat.
        exists axes. split; apply list_elem_of_In;
          [eapply list_elem_of_lookup_2; exact Hj | exact Ha]. }
      split.
      * intros H. apply alist_get_Some_elem in H.
        apply elem_of_reverse, list_elem_of_fmap in H as (a' & [= <- <-] & Ha).
        split.
        -- exists d. rewrite Nat.sub_diag. auto.
        -- intros [|j] axes Hj Ha'; [lia |].
           exfalso. exact (Hnone j axes Hj Ha').
      * intros [(axes & Hn & Hi & Ha) _].
        destruct (i - n) as [|k] eqn:Hk.
        -- injection Hi as <-. replace i with n by lia.
           apply alist_get_NoDup_const. exact Ha.
        -- exfalso. exact (Hnone k axes Hi Ha).
Qed.

(** X12: the mapping the emitter builds has one entry per axis the
    placement names: its keys are those axes, each once. *)
Theorem get_array_mapping_keys (spec : ParsedPartitionSpec) :
  NoDup (map fst (get_array_mapping spec)) /\
  (forall a, a ∈ map fst (get_array_mapping spec)
             <-> a ∈ concat (partitions spec)).
Proof.
  rewrite get_array_mapping_fold. split.
  - apply mapping_fold_NoDup. apply NoDup_nil_2.
  - intros a. rewrite mapping_fold_keys, mapping_pairs_keys. split.
    + intros [H|H]; [inversion H | exact H].
    + auto.
Qed.

(** X13: the mapping sends an axis to the index of a dimension that names
    it, and when several dimensions name it, to the last of them. *)
Theorem get_array_mapping_last_dimension (spec : ParsedPartitionSpec)
    (a : axis_name) (i : nat) :
  alist_get a (get_array_mapping spec) = Some i
  <-> (exists axes, partitions spec !! i = Some axes /\ a ∈ axes) /\
      (forall j axes, partitions spec !! j = Some axes -> a ∈ axes -> j <= i).
Proof.
  rewrite get_array_mapping_fold, mapping_fold_get. simpl.
  assert (alist_get a (reverse (mapping_pairs 0 (partitions spec))) = Some i
          <-> match alist_get a (reverse (mapping_pairs 0 (partitions spec)))
              with
              | Some v => Some v
              | None => None
              end = Some i) as <-
    by (destruct (alist_get a _); reflexivity).
  rewrite mapping_pairs_last. rewrite Nat.sub_0_r. split.
  - intros [(axes & _ & Hi & Ha) Hlast]. split; [eauto |].
    intros j axes' Hj Ha'. exact (Hlast j axes' Hj Ha').
  - intros [(axes & Hi & Ha) Hlast]. split.
    + exists axes. split; [lia | auto].
    + intros j axes' Hj Ha'. simpl. exact (Hlast j axes' Hj Ha').
Qed.

(** X14: for a placement the uniqueness checker accepts, the mapping is the
    sequence of the axes in the order written, each with the index of its
    dimension; an axis is sent to a dimension exactly when that dimension
    names it. *)
Theorem get_array_mapping_of_unique (spec : ParsedPartitionSpec)
    (arg_name : string) :
  _check_unique_resources [spec] arg_name = Ok tt ->
  get_array_mapping spec = mapping_pairs 0 (partitions spec) /\
  (forall a i,
     alist_get a (get_array_mapping spec) = Some i
     <-> exists axes, partitions spec !! i = Some axes /\ a ∈ axes).
Proof.
  intros H. unfold _check_unique_resources in H.
  rewrite for_each_Ok in H. apply Forall_inv in H.
  apply check_unique_one_Ok in H.
  assert (NoDup (concat (partitions spec))) as Hnd.
  { destruct H as [->|[_ H]]; [constructor | exact H]. }
  assert (get_array_mapping spec = mapping_pairs 0 (partitions spec)) as Heq.
  { rewrite get_array_mapping_fold, mapping_fold_fresh; [reflexivity |].
    simpl. rewrite mapping_pairs_keys. exact Hnd. }
  split; [exact Heq |]. intros a i. rewrite Heq. split.
  - intros Hget. apply alist_get_Some_elem, elem_of_mapping_pairs in Hget
      as (axes & _ & Hi & Ha).
    rewrite Nat.sub_0_r in Hi. eauto.
  - intros (axes & Hi & Ha). apply alist_get_NoDup.
    + rewrite mapping_pairs_keys. exact Hnd.
    + apply elem_of_mapping_pairs. exists axes. rewrite Nat.sub_0_r.
      split; [lia | auto].
Qed.

Lemma get_array_mapping_of_unique_witness :
  get_array_mapping spec_x = mapping_pairs 0 (partitions spec_x) /\
  (forall a i,
     alist_get a (get_array_mapping spec_x) = Some i
     <-> exists axes, partitions spec_x !! i = Some axes /\ a ∈ axes).
Proof.
  apply (get_array_mapping_of_unique spec_x "in_axis_resources"%string).
  reflexivity.
Defined.

(** An axis named by two dimensions keeps the place of its first mention
    and gets the index of the last. *)
Example get_array_mapping_repeated_axis :
  get_array_mapping spec_x_yx = [("x"%string, 1); ("y"%string, 1)].
Proof. reflexivity. Qed.

(** ** The parameter rewrites, in full *)

Lemma filter_zip_cons {A : Type} (x : A) (l : list A) (b : bool)
    (mask : list bool) :
  filter_zip (x :: l) (b :: mask)
  = if b then x :: filter_zip l mask else filter_zip l mask.
Proof.
  unfold filter_zip. simpl zip_with. rewrite filter_cons. simpl.
  destruct b; simpl.
  - destruct (decide (true = true)); [reflexivity | congruence].
  - destruct (decide (false = true)); [discriminate | reflexivity].
Qed.

Lemma filter_zip_all_true {A : Type} (l : list A) :
  filter_zip l (replicate (length l) true) = l.
Proof.
  induction l as [|x l IH]; [reflexivity |].
  simpl replicate. rewrite filter_zip_cons, IH. reflexivity.
Qed.

Lemma filter_zip_all_false {A : Type} (l : list A) (mask : list bool) :
  Forall (fun b => b = false) mask -> filter_zip l mask = [].
Proof.
  intros H. revert l. induction H as [|b mask -> _ IH]; intros l.
  - apply filter_zip_nil_r.
  - destruct l as [|x l]; [reflexivity |].
    rewrite filter_zip_cons. apply IH.
Qed.

Lemma filter_zip_app {A : Type} (l1 l2 : list A) (m1 m2 : list bool) :
  length l1 = length m1 ->
  filter_zip (l1 ++ l2) (m1 ++ m2) = filter_zip l1 m1 ++ filter_zip l2 m2.
Proof.
  revert m1. induction l1 as [|x l1 IH]; intros [|b m1] Hlen;
    simpl in Hlen; try discriminate; [reflexivity |].
  simpl app. rewrite !filter_zip_cons, IH by lia.
  destruct b; reflexivity.
Qed.

Lemma count_true_le (mask : list bool) : count_true mask <= length mask.
Proof. unfold count_true. apply length_filter. Qed.

(** X15: when the body of the staged call has [consts] constants before
    the inputs that are unknown, the rewrite returns
    [consts + unknown - inputs] entries, none if that is negative, followed
    by one entry per unknown input. There are as many as the body has inputs
    exactly when there is no constant or no input is known. *)
Theorem partial_eval_lengths_agree_iff (params : pjit_params)
    (in_unknowns : list bool) (jaxpr : Jaxpr)
    (new_params : pjit_final_params) (consts : nat) :
  call_jaxpr params = Some jaxpr ->
  length (donated_invars params) = length in_unknowns ->
  length (in_axis_resources params) = length in_unknowns ->
  in_unknowns <> [] ->
  length (invars jaxpr) = consts + count_true in_unknowns ->
  _pjit_partial_eval_update_params params in_unknowns = Ok new_params ->
  length (final_in_axis_resources new_params)
  = consts + count_true in_unknowns - length in_unknowns
    + count_true in_unknowns /\
  length (final_donated_invars new_params)
  = length (final_in_axis_resources new_params) /\
  (length (final_in_axis_resources new_params) = length (invars jaxpr)
   <-> consts = 0 \/ count_true in_unknowns = length in_unknowns).
Proof.
  intros Hj Hd Ha Hne Hinv Hnew.
  destruct (partial_eval_lengths _ _ _ _ Hj Hd Ha Hnew) as [Heq Hlen].
  destruct in_unknowns as [|u us]; [congruence |]. simpl in Hlen.
  pose proof (count_true_le (u :: us)) as Hle.
  rewrite <- Heq, Hlen, Hinv, Hd. repeat split; lia.
Qed.

Lemma partial_eval_lengths_agree_iff_witness :
  exists new_params,
    _pjit_partial_eval_update_params two_argument_params [false; true]
    = Ok new_params /\
    length (final_in_axis_resources new_params) = 1 /\
    (length (final_in_axis_resources new_params)
     = length (invars staged_jaxpr)
     <-> 1 = 0 \/ count_true [false; true] = length [false; true]).
Proof.
  eexists. split; [reflexivity |].
  pose proof (partial_eval_lengths_agree_iff two_argument_params
                [false; true] staged_jaxpr _ 1 eq_refl eq_refl eq_refl
                ltac:(discriminate) eq_refl eq_refl) as (H1 & _ & H3).
  split; [exact H1 | exact H3].
Defined.

(** X16: replaying a call without input tracers discards the donation
    flags and the placements of the call: the result has one [False] and one
    [REPLICATED] per input of the body, the placements the thunk returns for
    the outputs, and the body, the environment and the name unchanged. *)
Theorem partial_eval_replay_without_tracers (params : pjit_params)
    (jaxpr : Jaxpr) (out : list ParsedPartitionSpec) :
  call_jaxpr params = Some jaxpr ->
  hf_call (out_axis_resources_thunk params) = Ok out ->
  _pjit_partial_eval_update_params params []
  = Ok (mkFinal (Some jaxpr)
                (replicate (length (invars jaxpr)) Parser.REPLICATED) out
                (resource_env params)
                (replicate (length (invars jaxpr)) false) (name params)).
Proof.
  intros Hj Hout. unfold _pjit_partial_eval_update_params.
  rewrite Hj. simpl. unfold mbind, result_bind, tuple_repeat.
  destruct (donated_invars params) as [|d ds]; simpl; rewrite Hout;
    rewrite ?filter_zip_nil_r, ?app_nil_r, ?Z.sub_0_r, ?Nat2Z.id;
    reflexivity.
Qed.

Lemma partial_eval_replay_without_tracers_witness :
  _pjit_partial_eval_update_params two_argument_params []
  = Ok (mkFinal (Some staged_jaxpr) [Parser.REPLICATED; Parser.REPLICATED]
                [Parser.REPLICATED] mesh_x2 [false; false] "f").
Proof.
  exact (partial_eval_replay_without_tracers two_argument_params staged_jaxpr
           [Parser.REPLICATED] eq_refl eq_refl).
Defined.

(** X17: a staged call turned back into a call that is bound gets a thunk
    that returns its output placements, so rewriting it for partial
    evaluation always succeeds and gives those placements back. When every
    input is unknown and the body has exactly the inputs of the call, the
    round trip returns the parameters it started from. *)
Theorem init_to_final_then_partial_eval (params : pjit_final_params)
    (jaxpr : Jaxpr) (in_unknowns : list bool) :
  final_call_jaxpr params = Some jaxpr ->
  (exists new_params,
     _pjit_partial_eval_update_params (_pjit_init_to_final_params params)
                                      in_unknowns = Ok new_params /\
     out_axis_resources new_params = out_axis_resources params /\
     final_call_jaxpr new_params = Some jaxpr /\
     final_resource_env new_params = final_resource_env params /\
     final_name new_params = final_name params) /\
  (length (final_in_axis_resources params) = length (invars jaxpr) ->
   length (final_donated_invars params) = length (invars jaxpr) ->
   in_unknowns = replicate (length (invars jaxpr)) true ->
   _pjit_partial_eval_update_params (_pjit_init_to_final_params params)
                                    in_unknowns = Ok params).
Proof.
  intros Hj. split.
  - unfold _pjit_partial_eval_update_params, _pjit_init_to_final_params.
    simpl. rewrite Hj. simpl.
    destruct (negb (nonempty in_unknowns)
              && nonempty (final_donated_invars params));
      eexists; repeat split.
  - intros Hin Hdon ->.
    unfold _pjit_partial_eval_update_params, _pjit_init_to_final_params.
    simpl. rewrite Hj. simpl.
    assert (negb (nonempty (replicate (length (invars jaxpr)) true))
            && nonempty (final_donated_invars params) = false) as ->.
    { destruct (invars jaxpr); simpl in *;
        [destruct (final_donated_invars params); [reflexivity | discriminate]
        | reflexivity]. }
    assert (filter_zip (final_donated_invars params)
                       (replicate (length (invars jaxpr)) true)
            = final_donated_invars params) as ->
      by (rewrite <- Hdon; apply filter_zip_all_true).
    assert (filter_zip (final_in_axis_resources params)
                       (replicate (length (invars jaxpr)) true)
            = final_in_axis_resources params) as ->
      by (rewrite <- Hin; apply filter_zip_all_true).
    rewrite Hdon, Z.sub_diag. unfold tuple_repeat. simpl.
    destruct params; simpl in *. rewrite Hj. reflexivity.
Qed.

Lemma init_to_final_then_partial_eval_witness :
  _pjit_partial_eval_update_params (_pjit_init_to_final_params named_params)
                                   [true] = Ok named_params.
Proof.
  exact (proj2 (init_to_final_then_partial_eval named_params named_jaxpr
                  [true] eq_refl) eq_refl eq_refl eq_refl).
Defined.

(** X18: the differentiation rewrite leaves the body, the environment and
    the name of the call as they are, whatever the tangents; when no input
    has a nonzero tangent it also leaves the donation flags and the input
    placements as they are. *)
Theorem jvp_update_params_zero_tangents (params : pjit_params)
    (nz_tangents : list bool)
    (nz_tangents_out_thunk : unit -> result (list bool)) :
  let new_params :=
    _pjit_jvp_update_params params nz_tangents nz_tangents_out_thunk in
  call_jaxpr new_params = call_jaxpr params /\
  resource_env new_params = resource_env params /\
  name new_params = name params /\
  (Forall (fun nz => nz = false) nz_tangents ->
   in_axis_resources new_params = in_axis_resources params /\
   donated_invars new_params = donated_invars params).
Proof.
  intros new_params. unfold new_params, _pjit_jvp_update_params. simpl.
  split_and!; try reflexivity.
  intros H. rewrite !filter_zip_all_false by exact H. rewrite !app_nil_r.
  split; reflexivity.
Qed.

Lemma jvp_update_params_zero_tangents_witness :
  in_axis_resources
    (_pjit_jvp_update_params two_argument_params [false; false]
                             (fun _ => Ok [false]))
  = in_axis_resources two_argument_params /\
  name (_pjit_jvp_update_params two_argument_params [false; true]
                                (fun _ => Ok [true]))
  = name two_argument_params.
Proof.
  split.
  - pose proof (jvp_update_params_zero_tangents two_argument_params
                  [false; false] (fun _ => Ok [false])) as (_ & _ & _ & H).
    exact (proj1 (H ltac:(repeat constructor))).
  - pose proof (jvp_update_params_zero_tangents two_argument_params
                  [false; true] (fun _ => Ok [true])) as (_ & _ & H & _).
    exact H.
Defined.

(** The entries a mask selects are the entries at the positions the mask
    sets, in the order of the positions. *)
Lemma filter_zip_positions {A : Type} (l : list A) :
  forall (mask : list bool) (n : nat),
    StronglySorted lt (true_positions n (take (length l) mask)) /\
    Forall2 (fun i x => n <= i /\ l !! (i - n) = Some x)
            (true_positions n (take (length l) mask)) (filter_zip l mask).
Proof.
  induction l as [|x l IH]; intros mask n.
  - unfold filter_zip. simpl. split; constructor.
  - destruct mask as [|b mask]; simpl length; simpl take.
    + rewrite filter_zip_nil_r. split; constructor.
    + rewrite filter_zip_cons. simpl true_positions. destruct (IH mask (S n)) as [Hs Hf].
      assert (Forall2 (fun i y => n <= i /\ (x :: l) !! (i - n) = Some y)
                (true_positions (S n) (take (length l) mask))
                (filter_zip l mask)) as Hf'.
      { eapply Forall2_impl; [exact Hf |]. intros i y [Hi Hy]. split; [lia |].
        replace (i - n) with (S (i - S n)) by lia. exact Hy. }
      destruct b; [| auto]. split.
      * constructor; [exact Hs |].
        apply Forall_forall. intros i Hi.
        apply list_elem_of_lookup in Hi as [k Hk].
        destruct (Forall2_lookup_l _ _ _ _ _ Hf Hk) as (y & _ & Hle & _). lia.
      * constructor; [| exact Hf'].
        split; [lia |]. rewrite Nat.sub_diag. reflexivity.
Qed.

Lemma elem_of_true_positions (mask : list bool) (n i : nat) :
  i ∈ true_positions n mask <-> n <= i /\ mask !! (i - n) = Some true.
Proof.
  revert n. induction mask as [|b mask IH]; intros n; simpl.
  - split; [intros H; inversion H | intros [_ H]; discriminate].
  - assert (i ∈ true_positions (S n) mask
            <-> n < i /\ (b :: mask) !! (i - n) = Some true) as Htail.
    { rewrite IH. split.
      - intros [Hi H]. split; [lia |].
        replace (i - n) with (S (i - S n)) by lia. exact H.
      - intros [Hi H]. split; [lia |].
        replace (i - n) with (S (i - S n)) in H by lia. exact H. }
    destruct b.
    + rewrite elem_of_cons, Htail. split.
      * intros [->|[Hi H]]; [| split; [lia | exact H]].
        split; [lia |]. rewrite Nat.sub_diag. reflexivity.
      * intros [Hi H]. destruct (decide (i = n)) as [->|Hne]; [auto |].
        right. split; [lia | exact H].
    + rewrite Htail. split.
      * intros [Hi H]. split; [lia | exact H].
      * intros [Hi H]. destruct (decide (i = n)) as [->|Hne].
        -- rewrite Nat.sub_diag in H. discriminate.
        -- split; [lia | exact H].
Qed.

(** X19: the thunk the differentiation rewrite builds returns the output
    placements of the call followed by the placements of the outputs whose
    tangent is nonzero, in the order of these outputs: the appended entries
    stand, one for one, for the positions that the mask of nonzero tangents
    sets among the outputs, taken in increasing order, and each is the
    placement of the output at its position. An error of the thunk of the
    call is raised before the thunk of the nonzero tangents is asked. *)
Theorem jvp_out_axis_resources_thunk (params : pjit_params)
    (nz_tangents : list bool)
    (nz_tangents_out_thunk : unit -> result (list bool)) :
  let new_thunk :=
    out_axis_resources_thunk
      (_pjit_jvp_update_params params nz_tangents nz_tangents_out_thunk) in
  (forall out nz_out,
     hf_call (out_axis_resources_thunk params) = Ok out ->
     nz_tangents_out_thunk tt = Ok nz_out ->
     exists appended positions,
       hf_call new_thunk = Ok (out ++ appended) /\
       StronglySorted lt positions /\
       (forall i, i ∈ positions
                  <-> nz_out !! i = Some true /\ i < length out) /\
       Forall2 (fun i spec => out !! i = Some spec) positions appended) /\
  (forall e,
     hf_call (out_axis_resources_thunk params) = Raise e ->
     hf_call new_thunk = Raise e) /\
  (forall out e,
     hf_call (out_axis_resources_thunk params) = Ok out ->
     nz_tangents_out_thunk tt = Raise e ->
     hf_call new_thunk = Raise e).
Proof.
  intros new_thunk. unfold new_thunk, _pjit_jvp_update_params. simpl.
  unfold mbind, result_bind. split; [| split].
  - intros out nz_out -> ->.
    destruct (filter_zip_positions out nz_out 0) as [Hs Hf].
    exists (filter_zip out nz_out),
           (true_positions 0 (take (length out) nz_out)).
    split; [reflexivity |]. split; [exact Hs |]. split.
    + intros i. rewrite elem_of_true_positions, Nat.sub_0_r. split.
      * intros [_ H]. apply lookup_take_Some in H. exact H.
      * intros [H Hi]. split; [lia |]. apply lookup_take_Some. auto.
    + eapply Forall2_impl; [exact Hf |]. intros i y [_ Hy].
      rewrite Nat.sub_0_r in Hy. exact Hy.
  - intros e ->. reflexivity.
  - intros out e -> ->. reflexivity.
Qed.

Lemma jvp_out_axis_resources_thunk_witness :
  exists appended positions,
    hf_call (out_axis_resources_thunk
               (_pjit_jvp_update_params
                  (_pjit_init_to_final_params
                     (mkFinal None [] [spec_x; spec_y_z; spec_zy] mesh_x2
                              [] "f"))
                  [] (fun _ => Ok [true; false; true])))
    = Ok ([spec_x; spec_y_z; spec_zy] ++ appended) /\
    StronglySorted lt positions /\
    (forall i, i ∈ positions
               <-> [true; false; true] !! i = Some true /\ i < 3) /\
    Forall2 (fun i spec => [spec_x; spec_y_z; spec_zy] !! i = Some spec)
            positions appended.
Proof.
  exact (proj1 (jvp_out_axis_resources_thunk
                  (_pjit_init_to_final_params
                     (mkFinal None [] [spec_x; spec_y_z; spec_zy] mesh_x2
                              [] "f"))
                  [] (fun _ => Ok [true; false; true]))
               [spec_x; spec_y_z; spec_zy] [true; false; true]
               eq_refl eq_refl).
Defined.

(** The tangents of the first and the third of three outputs get the
    placements of the first and the third, in this order. *)
Example jvp_out_axis_resources_order :
  hf_call (out_axis_resources_thunk
             (_pjit_jvp_update_params
                (_pjit_init_to_final_params
                   (mkFinal None [] [spec_x; spec_y_z; spec_zy] mesh_x2
                            [] "f"))
                [] (fun _ => Ok [true; false; true])))
  = Ok [spec_x; spec_y_z; spec_zy; spec_x; spec_zy].
Proof. reflexivity. Qed.

(** X20: differentiation followed by partial evaluation with the primal
    inputs known and the tangent inputs unknown: the staged call gets, after
    the entries that stand for its constants, the donation flags and the
    placements of the inputs whose tangent is nonzero. The entries for the
    constants are as many as the inputs of the body exceed the inputs of the
    differentiated call. *)
Theorem jvp_then_partial_eval (params : pjit_params)
    (nz_tangents : list bool)
    (nz_tangents_out_thunk : unit -> result (list bool))
    (jaxpr : Jaxpr) (new_params : pjit_final_params) :
  length (in_axis_resources params) = length nz_tangents ->
  length (donated_invars params) = length nz_tangents ->
  _pjit_partial_eval_update_params
    (with_call_jaxpr
       (_pjit_jvp_update_params params nz_tangents nz_tangents_out_thunk)
       jaxpr)
    (replicate (length nz_tangents) false
     ++ replicate (count_true nz_tangents) true)
  = Ok new_params ->
  final_in_axis_resources new_params
  = replicate (length (invars jaxpr)
               - (length nz_tangents + count_true nz_tangents))
              Parser.REPLICATED
    ++ filter_zip (in_axis_resources params) nz_tangents /\
  final_donated_invars new_params
  = replicate (length (invars jaxpr)
               - (length nz_tangents + count_true nz_tangents)) false
    ++ filter_zip (donated_invars params) nz_tangents.
Proof.
  intros Hin Hdon.
  unfold _pjit_partial_eval_update_params, with_call_jaxpr,
    _pjit_jvp_update_params. simpl.
  set (us := replicate (length nz_tangents) false
             ++ replicate (count_true nz_tangents) true).
  assert (negb (nonempty us)
          && nonempty (donated_invars params
                       ++ filter_zip (donated_invars params) nz_tangents)
          = false) as ->.
  { unfold us. destruct nz_tangents as [|nz nzs]; [| reflexivity].
    destruct (donated_invars params); [reflexivity | discriminate]. }
  assert (forall (A : Type) (l : list A),
            length l = length nz_tangents ->
            filter_zip (l ++ filter_zip l nz_tangents) us
            = filter_zip l nz_tangents) as Hfilter.
  { intros A l Hl. unfold us. rewrite filter_zip_app.
    - rewrite filter_zip_all_false by (apply Forall_replicate; reflexivity).
      rewrite <- (filter_zip_length l nz_tangents Hl).
      apply filter_zip_all_true.
    - rewrite length_replicate. exact Hl. }
  rewrite !Hfilter by assumption.
  unfold mbind, result_bind, tuple_repeat.
  rewrite length_app, filter_zip_length by exact Hdon.
  match goal with
  | |- context [match ?t with Ok _ => _ | Raise _ => _ end] => destruct t
  end; [| discriminate].
  intros [= <-]. simpl.
  replace (Z.to_nat
             (Z.of_nat (length (invars jaxpr))
              - Z.of_nat (length (donated_invars params)
                          + count_true nz_tangents)))
    with (length (invars jaxpr)
          - (length nz_tangents + count_true nz_tangents)) by lia.
  auto.
Qed.

Lemma jvp_then_partial_eval_witness :
  exists new_params,
    _pjit_partial_eval_update_params
      (with_call_jaxpr
         (_pjit_jvp_update_params two_argument_params [false; true]
                                  (fun _ => Ok [true]))
         staged_jaxpr)
      (replicate 2 false ++ replicate 1 true)
    = Ok new_params /\
    final_in_axis_resources new_params
    = replicate (2 - (2 + 1)) Parser.REPLICATED
      ++ filter_zip [Parser.REPLICATED; spec_x] [false; true].
Proof.
  eexists. split; [reflexivity |].
  exact (proj1 (jvp_then_partial_eval two_argument_params [false; true]
                  (fun _ => Ok [true]) staged_jaxpr _
                  eq_refl eq_refl eq_refl)).
Defined.

(** ** Resource typing, in full *)

(** X21: a named axis of the value that is no key of
    [named_axis_resources] makes the check raise the [KeyError] of the first
    such axis, whatever the placement is. *)
Theorem check_named_axes_unbound (what : string) (a : ShapedArray)
    (pos_axis_resources : ParsedPartitionSpec)
    (named_axis_resources : gmap axis_name (list axis_name))
    (pre post : list axis_name) (n : axis_name) :
  map fst (named_shape a) = pre ++ n :: post ->
  Forall (fun m => is_Some (named_axis_resources !! m)) pre ->
  named_axis_resources !! n = None ->
  _check_resources_against_named_axes what a pos_axis_resources
                                      named_axis_resources
  = Raise (KeyError n).
Proof.
  intros Hnames Hpre Hn. unfold _check_resources_against_named_axes.
  rewrite Hnames.
  rewrite (comprehension_Raise_first _ pre post n (KeyError n)).
  - reflexivity.
  - eapply Forall_impl; [exact Hpre |]. intros m [rs Hm].
    exists rs. unfold getitem_named. rewrite Hm. reflexivity.
  - unfold getitem_named. rewrite Hn. reflexivity.
Qed.

Lemma check_named_axes_unbound_witness :
  _check_resources_against_named_axes "pjit input"%string aval_named_b_c
    Parser.REPLICATED b_on_x
  = Raise (KeyError "c"%string).
Proof.
  apply (check_named_axes_unbound "pjit input"%string aval_named_b_c
           Parser.REPLICATED b_on_x ["b"%string] [] "c"%string).
  - reflexivity.
  - repeat constructor. exists ["x"%string]. reflexivity.
  - reflexivity.
Defined.

(** X22: a value without named axes passes with every placement, and a
    placement that names no axis passes with every value whose named axes
    are bound. *)
Theorem check_named_axes_nothing_to_share (what : string) (a : ShapedArray)
    (pos_axis_resources : ParsedPartitionSpec)
    (named_axis_resources : gmap axis_name (list axis_name)) :
  (named_shape a = [] ->
   _check_resources_against_named_axes what a pos_axis_resources
                                       named_axis_resources = Ok tt) /\
  (concat (partitions pos_axis_resources) = [] ->
   named_axes_bound named_axis_resources a ->
   _check_resources_against_named_axes what a pos_axis_resources
                                       named_axis_resources = Ok tt).
Proof.
  split.
  - intros Hn. unfold _check_resources_against_named_axes. rewrite Hn. simpl.
    destruct (decide (_ = ∅)) as [_|E]; [reflexivity |].
    exfalso. apply E. set_solver.
  - intros Hp Hbound. unfold _check_resources_against_named_axes.
    rewrite (comprehension_getitem_named _ _ Hbound), Hp.
    unfold mbind, result_bind. simpl.
    destruct (decide (_ = ∅)) as [_|E]; [reflexivity |].
    exfalso. apply E. set_solver.
Qed.

(** X23: the check is about the set of axes a placement names: a
    placement that passes still passes when it is replaced by one naming
    only axes of the first, in any arrangement of dimensions. *)
Theorem check_named_axes_fewer_axes (what what' : string) (a : ShapedArray)
    (pos pos' : ParsedPartitionSpec)
    (named_axis_resources : gmap axis_name (list axis_name)) :
  (forall r, r ∈ concat (partitions pos') -> r ∈ concat (partitions pos)) ->
  _check_resources_against_named_axes what a pos named_axis_resources
  = Ok tt ->
  _check_resources_against_named_axes what' a pos' named_axis_resources
  = Ok tt.
Proof.
  intros Hsub. unfold _check_resources_against_named_axes.
  destruct (comprehension _ (map fst (named_shape a))) as [bound|e];
    [| discriminate].
  unfold mbind, result_bind.
  destruct (decide (_ = ∅)) as [E|_]; [| discriminate]. intros _.
  destruct (decide (_ = ∅)) as [_|E']; [reflexivity |].
  exfalso. apply E'. apply set_eq. intros r. split; [| set_solver].
  intros Hr. apply elem_of_intersection in Hr as [Hr1 Hr2].
  rewrite <- E. apply elem_of_intersection. split; [| exact Hr2].
  apply elem_of_list_to_set. apply elem_of_list_to_set in Hr1.
  apply Hsub, Hr1.
Qed.

Lemma check_named_axes_fewer_axes_witness :
  _check_resources_against_named_axes "pjit output"%string aval_named_b
    spec_zy b_on_x = Ok tt.
Proof.
  apply (check_named_axes_fewer_axes "pjit input"%string
           "pjit output"%string aval_named_b spec_y_z spec_zy b_on_x).
  - intros r H. apply list_elem_of_In in H. apply list_elem_of_In.
    simpl in *. tauto.
  - vm_compute. reflexivity.
Defined.

(** ** The opening checks of a call and the check of the outputs *)

Lemma foldl_max_lt (x n : Z) (l : list Z) :
  (foldl Z.max x l < n)%Z <-> (x < n)%Z /\ Forall (fun i => (i < n)%Z) l.
Proof.
  revert x. induction l as [|y l IH]; intros x; simpl.
  - split; [intros H; split; [exact H | constructor] | intros [H _]; exact H].
  - rewrite IH, Forall_cons. split.
    + intros [H1 H2]. repeat split; [lia | lia | exact H2].
    + intros (H1 & H2 & H3). split; [lia | exact H3].
Qed.

(** X24: a call passes the opening checks exactly when it has no keyword
    argument and every static and every donated index is below the number
    of positional arguments; keyword arguments are refused before the
    indices are looked at. Without static and donated indices every number
    of positional arguments passes, none included. *)
Theorem wrapped_check_arguments_spec (static_argnums donate_argnums : list Z)
    (nargs : nat) (kwargs : list string) :
  (wrapped_check_arguments static_argnums donate_argnums nargs kwargs = None
   <-> kwargs = [] /\
       Forall (fun i => (i < Z.of_nat nargs)%Z)
              (static_argnums ++ donate_argnums)) /\
  (kwargs <> [] ->
   wrapped_check_arguments static_argnums donate_argnums nargs kwargs
   = Some KwargsNotSupported) /\
  (static_argnums = [] -> donate_argnums = [] -> kwargs = [] ->
   wrapped_check_arguments static_argnums donate_argnums nargs kwargs
   = None).
Proof.
  unfold wrapped_check_arguments. split; [| split].
  - destruct kwargs as [|k ks]; simpl.
    + destruct (Z.leb_spec (Z.of_nat nargs)
                  (max_default (static_argnums ++ donate_argnums) (-1)))
        as [Hle|Hlt].
      * split; [discriminate |]. intros [_ Hall]. exfalso.
        destruct (static_argnums ++ donate_argnums) as [|x l]; simpl in Hle;
          [lia |].
        inversion Hall as [|? ? Hx Hl]; subst.
        pose proof (proj2 (foldl_max_lt x (Z.of_nat nargs) l)
                          (conj Hx Hl)). lia.
      * split; [| reflexivity]. intros _. split; [reflexivity |].
        destruct (static_argnums ++ donate_argnums) as [|x l]; simpl in Hlt;
          [constructor |].
        apply foldl_max_lt in Hlt as [Hx Hl]. constructor; assumption.
    + split; [discriminate | intros [H _]; discriminate].
  - intros H. destruct kwargs; [congruence | reflexivity].
  - intros -> -> ->. simpl.
    destruct (Z.leb_spec (Z.of_nat nargs) (-1)); [lia | reflexivity].
Qed.

(** A negative index passes whatever the number of arguments. *)
Example wrapped_check_arguments_negative_index :
  wrapped_check_arguments [(-1)%Z] [] 0 [] = None.
Proof. reflexivity. Qed.

(** X25: the check of the outputs is transparent: the checked function
    returns outputs exactly when the function returns them, the thunk
    returns placements and the validator accepts the outputs with these
    placements; it then returns the very outputs of the function. An error
    of the function is raised as it is, before the thunk is called. *)
Theorem check_output_shapes_transparent {value : Type}
    (get_aval : value -> ShapedArray)
    (f : list value -> result (list value)) (resource_env : ResourceEnv)
    (out_axis_resources_thunk : HashableFunction) (args : list value) :
  (forall outputs,
     _check_output_shapes get_aval f resource_env out_axis_resources_thunk
                          args = Ok outputs
     <-> f args = Ok outputs /\
         exists flat_axis_resources,
           hf_call out_axis_resources_thunk = Ok flat_axis_resources /\
           _check_shapes_against_resources get_aval "pjit outputs"
             resource_env outputs flat_axis_resources = Ok tt) /\
  (forall e,
     f args = Raise e ->
     _check_output_shapes get_aval f resource_env out_axis_resources_thunk
                          args = Raise e).
Proof.
  unfold _check_output_shapes, mbind, result_bind. split.
  - intros outputs. destruct (f args) as [outs|e]; [| split].
    + destruct (hf_call out_axis_resources_thunk) as [specs|e].
      * destruct (_check_shapes_against_resources get_aval "pjit outputs"
                    resource_env outs specs) as [[]|e] eqn:Hc.
        -- split.
           ++ intros [= <-]. split; [reflexivity |]. exists specs. auto.
           ++ intros [[= <-] _]. reflexivity.
        -- split; [discriminate |].
           intros [[= <-] (specs' & [= <-] & Hc')]. congruence.
      * split; [discriminate |]. intros [_ (specs' & [=] & _)].
    + discriminate.
    + intros [[=] _].
  - intros e ->. reflexivity.
Qed.
